(** * SetDiskCache: choosing a local, writable cache directory

    A shallow embedding of [set_cache_disk.py] (class [SetDiskCache]) and
    the properties of its volume selection.

    Layout:
    - [Str]: the Python string operations the class uses ([in],
      [str.lower], [str.splitlines], [str.startswith], [str.endswith]);
    - [PosixPath]: [posixpath.join], [posixpath.dirname] and
      [posixpath.split];
    - [OS]: the host the class runs on (platform name, home directory,
      mount table, what the file system allows), the mutable state it acts
      on (directories, files, [os.environ], the calls made) and a state and
      exception monad for the calls into [os] and [subprocess];
    - [SetDiskCache]: the methods of the class, one definition each;
    - [Spec]: the selection algorithm as the specification words it, and
      the vocabulary of the statements;
    - [Samples]: a few hosts to run the class on;
    - the properties.

    Calls to [logging] are left out: they return nothing and touch neither
    control flow, the file system nor the environment. *)

From Stdlib Require Import String Ascii List Bool Arith Lia.
From stdpp Require Import base gmap strings.

Import ListNotations.
Local Open Scope string_scope.
Local Open Scope list_scope.

(** ** Python strings

    A [str] is modelled as a [string]; its characters stand for the code
    points below 256. *)
Module Str.

Definition is_sep (c : ascii) : bool := Ascii.eqb c "/".

(** [t.startswith(s)] *)
Fixpoint startswith (s t : string) : bool :=
  match s, t with
  | EmptyString, _ => true
  | String a s', String b t' => Ascii.eqb a b && startswith s' t'
  | String _ _, EmptyString => false
  end.

(** [s in t] on strings: [s] occurs in [t] as a contiguous substring. *)
Fixpoint contains (s t : string) : bool :=
  startswith s t ||
  match t with
  | EmptyString => false
  | String _ t' => contains s t'
  end.

(** [t.endswith("/")] *)
Fixpoint ends_with_sep (t : string) : bool :=
  match t with
  | EmptyString => false
  | String c EmptyString => is_sep c
  | String _ t' => ends_with_sep t'
  end.

(** [str.lower] on one character: the ASCII capitals and the Latin-1
    capitals (192..222 but the multiplication sign 215) move up by 32. *)
Definition lower_char (c : ascii) : ascii :=
  let n := nat_of_ascii c in
  if (((65 <=? n) && (n <=? 90)) ||
      ((192 <=? n) && (n <=? 222) && negb (n =? 215)))%nat
  then ascii_of_nat (n + 32) else c.

Fixpoint lower (s : string) : string :=
  match s with
  | EmptyString => EmptyString
  | String c s' => String (lower_char c) (lower s')
  end.

(** The line boundaries of [str.splitlines] below code point 256:
    LF, VT, FF, FS, GS, RS and NEL; CR is handled apart because CR LF is
    one boundary. *)
Definition is_linebreak (c : ascii) : bool :=
  let n := nat_of_ascii c in
  ((n =? 10) || (n =? 11) || (n =? 12) || (n =? 28) || (n =? 29) ||
   (n =? 30) || (n =? 133))%nat.

Definition is_cr (c : ascii) : bool := (nat_of_ascii c =? 13)%nat.
Definition is_lf (c : ascii) : bool := (nat_of_ascii c =? 10)%nat.

(** [splitlines_from cur s]: the lines of [s], the first one prefixed by the
    characters [cur] already read.  No empty last line is produced. *)
Fixpoint splitlines_from (cur : string) (s : string) : list string :=
  match s with
  | EmptyString =>
      match cur with
      | EmptyString => []
      | _ => [cur]
      end
  | String c r =>
      if is_cr c then
        match r with
        | String d r' =>
            if is_lf d then cur :: splitlines_from "" r'
            else cur :: splitlines_from "" r
        | EmptyString => cur :: splitlines_from "" r
        end
      else if is_linebreak c then cur :: splitlines_from "" r
      else splitlines_from (cur ++ String c "") r
  end.

(** [s.splitlines()] *)
Definition splitlines (s : string) : list string := splitlines_from "" s.

(** ['\0' in s]: the calls of [os] refuse such a path with
    [ValueError]. *)
Fixpoint has_nul (s : string) : bool :=
  match s with
  | EmptyString => false
  | String c r => (nat_of_ascii c =? 0)%nat || has_nul r
  end.

End Str.

(** ** posixpath *)
Module PosixPath.

(** [posixpath.join(a, b)]: an absolute [b] discards [a]; otherwise [b] is
    appended, after a separator unless [a] is empty or ends in one. *)
Definition join (a b : string) : string :=
  if Str.startswith "/" b then b
  else if (String.eqb a "") || Str.ends_with_sep a then a ++ b
  else a ++ "/" ++ b.

(** [p[:p.rfind('/') + 1]]: the longest prefix of [p] that ends in a
    separator, empty when [p] has none. *)
Fixpoint head_to_last_sep (p : string) : string :=
  match p with
  | EmptyString => EmptyString
  | String c r =>
      if Str.contains "/" r then String c (head_to_last_sep r)
      else if Str.is_sep c then String c EmptyString
      else EmptyString
  end.

(** [s == '/' * len(s)] *)
Fixpoint all_sep (s : string) : bool :=
  match s with
  | EmptyString => true
  | String c r => Str.is_sep c && all_sep r
  end.

(** [s.rstrip('/')] *)
Fixpoint rstrip_sep (s : string) : string :=
  match s with
  | EmptyString => EmptyString
  | String c r =>
      match rstrip_sep r with
      | EmptyString => if Str.is_sep c then EmptyString else String c EmptyString
      | r' => String c r'
      end
  end.

(** [posixpath.dirname(p)]: the parent of [p]. *)
Definition dirname (p : string) : string :=
  let head := head_to_last_sep p in
  if negb (String.eqb head "") && negb (all_sep head)
  then rstrip_sep head else head.

(** [p[p.rfind('/') + 1:]]: what follows the last separator. *)
Fixpoint basename (p : string) : string :=
  match p with
  | EmptyString => EmptyString
  | String c r =>
      if Str.contains "/" r then basename r
      else if Str.is_sep c then r
      else String c r
  end.

(** [posixpath.split(p)] *)
Definition split (p : string) : string * string := (dirname p, basename p).

End PosixPath.

(** ** The host and the state the class acts on *)
Module OS.

(** The exception classes that matter here: the two the class has handlers
    for ([IOError] is [OSError] in Python 3; [FileNotFoundError],
    [FileExistsError] and [PermissionError] are kinds of [OSError]), and
    [ValueError], which the calls of [os] raise on a path that holds a NUL
    and which no handler of the class catches. *)
Inductive Exn : Type :=
| OSError
| CalledProcessError
| ValueError.

Definition Exn_eqb (a b : Exn) : bool :=
  match a, b with
  | OSError, OSError => true
  | CalledProcessError, CalledProcessError => true
  | ValueError, ValueError => true
  | _, _ => false
  end.

Inductive Result (A : Type) : Type :=
| Ok (a : A)
| Raise (e : Exn).
Arguments Ok {A} a.
Arguments Raise {A} e.

(** The calls the class makes into [os], [os.path] and [subprocess], in the
    order it makes them. *)
Inductive Call : Type :=
| IsMount (path : string)
| IsDir (path : string)
| CheckOutput (argv : list string)
| MakeDirs (path : string)
| OpenW (path : string)
| WriteF (path data : string)
| Remove (path : string)
| SetEnv (key value : string).

(** How [subprocess.check_output(argv, text=True)] ends: with the output
    of the command, with [CalledProcessError] because the command exited
    with a nonzero status, with an [OSError] because the command could not
    be started at all (it is not installed, or may not be executed), or
    with a [UnicodeDecodeError], a kind of [ValueError], because what the
    command printed is no text in the encoding of the locale. *)
Inductive Completed : Type :=
| Output (out : string)
| ExitStatus
| NotStarted
| Undecodable.

(** What does not change while the class runs.  What the file system
    allows is a fixed function of the path: [mkdir_allowed d] says whether
    [os.mkdir] may create the directory [d] once its parent is there,
    [may_open f] whether the file [f] may be opened for writing once its
    directory is there, and so on. *)
Record Host : Type := {
  system : string;                          (* platform.system() *)
  home : string;                            (* os.path.expanduser('~') *)
  mount_points : string -> bool;            (* os.path.ismount *)
  command : list string -> Completed;
  ntpath_join : string -> string -> string; (* os.path.join on Windows *)
  ntpath_split : string -> string * string; (* os.path.split on Windows *)
  mkdir_allowed : string -> bool;
  may_open : string -> bool;
  may_write : string -> bool;
  may_remove : string -> bool
}.

(** A directory is in [dirs] under one name, the one without trailing
    separator ([dir_key] below); a file is in [files] under the path it was
    opened with. *)
Record State : Type := {
  dirs : gset string;            (* the directories *)
  files : gmap string string;    (* the regular files and their contents *)
  environ : gmap string string;  (* os.environ *)
  calls : list Call              (* the calls made so far, oldest first *)
}.

Definition M (A : Type) : Type := State -> Result A * State.

Definition ret {A : Type} (a : A) : M A := fun s => (Ok a, s).

Definition bind {A B : Type} (m : M A) (k : A -> M B) : M B :=
  fun s =>
    match m s with
    | (Ok a, s') => k a s'
    | (Raise e, s') => (Raise e, s')
    end.

(** [try: body except exn: handler] *)
Definition try_except {A : Type} (body : M A) (exn : Exn) (handler : M A)
  : M A :=
  fun s =>
    match body s with
    | (Ok a, s') => (Ok a, s')
    | (Raise e, s') => if Exn_eqb e exn then handler s' else (Raise e, s')
    end.

Definition log (c : Call) (s : State) : State :=
  {| dirs := dirs s; files := files s; environ := environ s;
     calls := calls s ++ [c] |}.

Definition add_dir (d : string) (s : State) : State :=
  {| dirs := {[d]} ∪ dirs s; files := files s; environ := environ s;
     calls := calls s |}.

Section Calls.
Variable host : Host.

(** [os.path.join] *)
Definition path_join (a b : string) : string :=
  if String.eqb (system host) "Windows" then ntpath_join host a b
  else PosixPath.join a b.

(** [os.path.split] *)
Definition path_split (p : string) : string * string :=
  if String.eqb (system host) "Windows" then ntpath_split host p
  else PosixPath.split p.

(** The name under which the state knows the directory [path]: the head
    [os.path.split] gives for a file placed directly in [path].  Off
    Windows this is [path] without its trailing separators, so [/a/b] and
    [/a/b/] are one directory. *)
Definition dir_key (path : string) : string :=
  fst (path_split (path_join path ".write_test")).

(** Whether [path] is a directory of state [s]; never so for the empty
    path or for a path that holds a NUL. *)
Definition is_dir (s : State) (path : string) : bool :=
  negb (String.eqb path "") && negb (Str.has_nul path) &&
  bool_decide (dir_key path ∈ dirs s).

(** Whether [os.mkdir] may create [path] once its parent is there. *)
Definition may_mkdir (path : string) : bool :=
  mkdir_allowed host (dir_key path).

(** The directory [d] lies in, when [os.makedirs] would look at it: the
    head of [os.path.split(d)] when head and tail are both non-empty.  The
    bound on the length always holds off Windows ([parent_key_posix]
    below); it keeps the climb finite for any [ntpath_split]. *)
Definition parent_key (d : string) : option string :=
  let (head, tail) := path_split d in
  if negb (String.eqb head "") && negb (String.eqb tail "") &&
     (String.length (dir_key head) <? String.length d)%nat
  then Some (dir_key head) else None.

(** [os.path.ismount(path)] *)
Definition path_ismount (path : string) : M bool :=
  fun s => (Ok (mount_points host path), log (IsMount path) s).

(** [os.path.isdir(path)] *)
Definition path_isdir (path : string) : M bool :=
  fun s => (Ok (is_dir s path), log (IsDir path) s).

(** [subprocess.check_output(argv, text=True)] *)
Definition check_output (argv : list string) : M string :=
  fun s =>
    match command host argv with
    | Output out => (Ok out, log (CheckOutput argv) s)
    | ExitStatus => (Raise CalledProcessError, log (CheckOutput argv) s)
    | NotStarted => (Raise OSError, log (CheckOutput argv) s)
    | Undecodable => (Raise ValueError, log (CheckOutput argv) s)
    end.

(** The [os.mkdir(d)] of [os.makedirs] with its [exist_ok] handling: a
    directory that is there already is fine. *)
Definition mkdir_key (d : string) : M unit :=
  fun s =>
    if Str.has_nul d then (Raise ValueError, s)
    else if bool_decide (d ∈ dirs s) then (Ok tt, s)
    else if negb (String.eqb d "") && mkdir_allowed host d then
      (Ok tt, add_dir d s)
    else (Raise OSError, s).

(** The recursion of [os.makedirs] on directory [d]: when the parent of
    [d] is missing it is made first, in the same way; then [d] is made.  A
    failure on the way leaves behind what was made before it.  [fuel]
    bounds the climb; the length of [d] is enough. *)
Fixpoint make_chain (fuel : nat) (d : string) : M unit :=
  match parent_key d, fuel with
  | Some parent, S n =>
      fun s =>
        if bool_decide (parent ∈ dirs s) then mkdir_key d s
        else bind (make_chain n parent) (fun _ => mkdir_key d) s
  | _, _ => mkdir_key d
  end.

(** [os.makedirs(path, exist_ok=True)]: the missing parents of [path] are
    made, outermost first, then [path] itself.  The empty path cannot be
    made.  (The shortcut of [os.makedirs] for a path whose last component
    is [.] is left out: such a path is treated like any other.) *)
Definition makedirs (path : string) : M unit :=
  fun s =>
    let s1 := log (MakeDirs path) s in
    if String.eqb path "" then (Raise OSError, s1)
    else if Str.has_nul path && negb (Str.has_nul (dir_key path)) then
      (Raise ValueError, s1)
    else make_chain (String.length (dir_key path)) (dir_key path) s1.

(** Whether the directory of file [path] is there; a bare file name lies
    in the current directory. *)
Definition dir_present (s : State) (path : string) : bool :=
  let d := fst (path_split path) in
  String.eqb d "" || bool_decide (d ∈ dirs s).

(** [open(path, 'w')]: creates the file or empties it; fails when its
    directory is missing. *)
Definition open_w (path : string) : M unit :=
  fun s =>
    let s1 := log (OpenW path) s in
    if Str.has_nul path then (Raise ValueError, s1)
    else if may_open host path && dir_present s path then
      (Ok tt, {| dirs := dirs s1; files := <[path := ""]> (files s1);
                 environ := environ s1; calls := calls s1 |})
    else (Raise OSError, s1).

(** [f.write(data)] and the close at the end of the [with] block. *)
Definition write (path data : string) : M unit :=
  fun s =>
    let s1 := log (WriteF path data) s in
    if may_write host path then
      (Ok tt, {| dirs := dirs s1;
                 files := <[path := (default "" (files s1 !! path) ++ data)%string]>
                            (files s1);
                 environ := environ s1; calls := calls s1 |})
    else (Raise OSError, s1).

(** [os.remove(path)] *)
Definition remove (path : string) : M unit :=
  fun s =>
    let s1 := log (Remove path) s in
    if Str.has_nul path then (Raise ValueError, s1)
    else if may_remove host path && bool_decide (is_Some (files s !! path))
    then
      (Ok tt, {| dirs := dirs s1; files := delete path (files s1);
                 environ := environ s1; calls := calls s1 |})
    else (Raise OSError, s1).

(** [os.environ[key] = value] *)
Definition setenv (key value : string) : M unit :=
  fun s =>
    let s1 := log (SetEnv key value) s in
    if Str.has_nul key || Str.has_nul value then (Raise ValueError, s1)
    else
      (Ok tt, {| dirs := dirs s1; files := files s1;
                 environ := <[key := value]> (environ s1);
                 calls := calls s1 |}).

End Calls.
End OS.

Import OS.

Notation "x <- m ;; k" := (OS.bind m (fun x => k))
  (at level 100, m at next level, right associativity).

(** ** The class *)
Module SetDiskCache.

(** The attributes of an instance. *)
Record t : Type := {
  preferred_volumes : list string;
  cache_dir : string;
  cache_path : option string
}.

Definition set_cache_path (self : t) (p : option string) : t :=
  {| preferred_volumes := preferred_volumes self;
     cache_dir := cache_dir self;
     cache_path := p |}.

(** Truth value of an [Optional[str]]: [None] and [''] are false. *)
Definition truthy (p : option string) : bool :=
  match p with
  | Some s => negb (String.eqb s "")
  | None => false
  end.

Definition network_filesystems : list string :=
  ["smbfs"; "nfs"; "afp"; "cifs"; "webdav"].

Section Methods.
Variable host : Host.

(** The [for line in mount_output.splitlines()] loop of
    [_is_network_drive]: the first line mentioning [volume_path] decides. *)
Fixpoint mount_lines (volume_path : string) (lines : list string) : bool :=
  match lines with
  | [] => false
  | line :: rest =>
      if Str.contains volume_path line then
        existsb (fun fs_type => Str.contains fs_type line) network_filesystems
      else mount_lines volume_path rest
  end.

Definition _is_network_drive (self : t) (volume_path : string) : M bool :=
  let current_os := system host in
  if String.eqb current_os "Darwin" || String.eqb current_os "Linux" then
    try_except
      (mount_output <- check_output host ["mount"] ;;
       ret (mount_lines volume_path (Str.splitlines mount_output)))
      CalledProcessError
      (ret false)
  else if String.eqb current_os "Windows" then
    try_except
      (output <- check_output host ["net"; "use"] ;;
       ret (Str.contains (Str.lower volume_path) (Str.lower output)))
      CalledProcessError
      (ret false)
  else ret false.

Definition _ensure_directory (self : t) (path : string) : M bool :=
  isdir <- path_isdir host path ;;
  if isdir then ret true
  else
    try_except
      (_ <- makedirs host path ;; ret true)
      OSError
      (ret false).

Definition _is_writable (self : t) (path : string) : M bool :=
  let test_file := path_join host path ".write_test" in
  try_except
    (_ <- open_w host test_file ;;
     _ <- write host test_file "test" ;;
     _ <- remove host test_file ;;
     ret true)
    OSError
    (ret false).

(** [a and b] on two calls: [b] runs only when [a] is true. *)
Definition and_then (a b : M bool) : M bool :=
  x <- a ;; if x then b else ret false.

(** The [for volume in self.preferred_volumes] loop of
    [_find_suitable_cache_path_macos]; [Some p] when it returns [p]. *)
Fixpoint macos_volumes (self : t) (volumes : list string)
  : M (option string) :=
  match volumes with
  | [] => ret None
  | volume :: rest =>
      let volume_path := path_join host "/Volumes" volume in
      mounted <- path_ismount host volume_path ;;
      if negb mounted then macos_volumes self rest
      else
        network <- _is_network_drive self volume_path ;;
        if network then macos_volumes self rest
        else
          let cache_path := path_join host volume_path (cache_dir self) in
          ok <- and_then (_ensure_directory self cache_path)
                         (_is_writable self cache_path) ;;
          if ok then ret (Some cache_path)
          else macos_volumes self rest
  end.

(** The statements after the loop, the same in the three finders. *)
Definition home_fallback (self : t) : M (option string) :=
  let home_cache_path := path_join host (home host) (cache_dir self) in
  ok <- and_then (_ensure_directory self home_cache_path)
                 (_is_writable self home_cache_path) ;;
  if ok then ret (Some home_cache_path) else ret None.

Definition _find_suitable_cache_path_macos (self : t) : M (option string) :=
  found <- macos_volumes self (preferred_volumes self) ;;
  match found with
  | Some cache_path => ret (Some cache_path)
  | None => home_fallback self
  end.

Fixpoint linux_volumes (self : t) (volumes : list string)
  : M (option string) :=
  match volumes with
  | [] => ret None
  | volume :: rest =>
      let volume_path := path_join host "/mnt" volume in
      mounted <- path_ismount host volume_path ;;
      if negb mounted then linux_volumes self rest
      else
        network <- _is_network_drive self volume_path ;;
        if network then linux_volumes self rest
        else
          let cache_path := path_join host volume_path (cache_dir self) in
          ok <- and_then (_ensure_directory self cache_path)
                         (_is_writable self cache_path) ;;
          if ok then ret (Some cache_path)
          else linux_volumes self rest
  end.

Definition _find_suitable_cache_path_linux (self : t) : M (option string) :=
  found <- linux_volumes self (preferred_volumes self) ;;
  match found with
  | Some cache_path => ret (Some cache_path)
  | None => home_fallback self
  end.

Fixpoint windows_volumes (self : t) (volumes : list string)
  : M (option string) :=
  match volumes with
  | [] => ret None
  | volume :: rest =>
      let volume_path := (volume ++ ":\")%string in
      accessible <- path_isdir host volume_path ;;
      if negb accessible then windows_volumes self rest
      else
        let cache_path := path_join host volume_path (cache_dir self) in
        ok <- and_then (_ensure_directory self cache_path)
                       (_is_writable self cache_path) ;;
        if ok then ret (Some cache_path)
        else windows_volumes self rest
  end.

Definition _find_suitable_cache_path_windows (self : t) : M (option string) :=
  found <- windows_volumes self (preferred_volumes self) ;;
  match found with
  | Some cache_path => ret (Some cache_path)
  | None => home_fallback self
  end.

(** The body shared by the three [_set_cache_location_*] methods once
    [self.cache_path] is assigned. *)
Definition export_cache_path (self : t) : M t :=
  if truthy (cache_path self) then
    let p := default "" (cache_path self) in
    _ <- setenv "NUKE_TEMP_DIR" p ;;
    _ <- setenv "NUKE_DISK_CACHE" p ;;
    ret self
  else ret self.

Definition _set_cache_location_macos (self : t) : M t :=
  p <- _find_suitable_cache_path_macos self ;;
  export_cache_path (set_cache_path self p).

Definition _set_cache_location_linux (self : t) : M t :=
  p <- _find_suitable_cache_path_linux self ;;
  export_cache_path (set_cache_path self p).

Definition _set_cache_location_windows (self : t) : M t :=
  p <- _find_suitable_cache_path_windows self ;;
  export_cache_path (set_cache_path self p).

Definition _handle_os_specific_cache_location (self : t) : M t :=
  let current_os := system host in
  if String.eqb current_os "Darwin" then _set_cache_location_macos self
  else if String.eqb current_os "Linux" then _set_cache_location_linux self
  else if String.eqb current_os "Windows" then
    _set_cache_location_windows self
  else ret self.

Definition __init__ (preferred_volumes : list string) (cache_dir : string)
  : M t :=
  _handle_os_specific_cache_location
    {| preferred_volumes := preferred_volumes;
       cache_dir := cache_dir;
       cache_path := None |}.

End Methods.
End SetDiskCache.

Import SetDiskCache.

(** ** The selection algorithm as the specification words it

    [select] is the ordered, first-match-wins procedure over a platform
    policy; the three finders of the class are compared with it below. *)
Module Spec.

Record PlatformPolicy : Type := {
  mountRootFor : string -> string;
  isMounted : string -> M bool;
  isNetworkMounted : string -> M bool
}.

Section Select.
Variable host : Host.
Variable self : t.
Variable policy : PlatformPolicy.

(** Steps (a) to (g) for one volume: [Some path] when the volume is
    accepted, [None] when it is skipped. *)
Definition candidate (volume : string) : M (option string) :=
  let mountRoot := mountRootFor policy volume in
  mounted <- isMounted policy mountRoot ;;
  if negb mounted then ret None
  else
    network <- isNetworkMounted policy mountRoot ;;
    if network then ret None
    else
      let candidatePath := path_join host mountRoot (cache_dir self) in
      created <- _ensure_directory host self candidatePath ;;
      if negb created then ret None
      else
        writable <- _is_writable host self candidatePath ;;
        if writable then ret (Some candidatePath) else ret None.

(** Step 1: the volumes in order, stopping at the first accepted one. *)
Fixpoint select_volumes (volumes : list string) : M (option string) :=
  match volumes with
  | [] => ret None
  | volume :: rest =>
      r <- candidate volume ;;
      match r with
      | Some path => ret (Some path)
      | None => select_volumes rest
      end
  end.

(** Step 2: the home directory, through steps (e) and (f). *)
Definition home_candidate : M (option string) :=
  let homePath := path_join host (home host) (cache_dir self) in
  created <- _ensure_directory host self homePath ;;
  if negb created then ret None
  else
    writable <- _is_writable host self homePath ;;
    if writable then ret (Some homePath) else ret None.

Definition select : M (option string) :=
  r <- select_volumes (preferred_volumes self) ;;
  match r with
  | Some path => ret (Some path)
  | None => home_candidate
  end.

(** Every volume of [volumes] is examined and skipped, one after the
    other from state [s]; the state this leaves. *)
Fixpoint reject_all (volumes : list string) (s : State) : option State :=
  match volumes with
  | [] => Some s
  | volume :: rest =>
      match candidate volume s with
      | (Ok None, s1) => reject_all rest s1
      | _ => None
      end
  end.

(** The cache directory of each preferred volume, then the one under the
    home directory: the only paths the selection may ask [os.makedirs]
    for. *)
Definition cache_paths : list string :=
  map (fun volume =>
         path_join host (mountRootFor policy volume) (cache_dir self))
      (preferred_volumes self)
  ++ [path_join host (home host) (cache_dir self)].

End Select.

Definition macos_policy (host : Host) (self : t) : PlatformPolicy :=
  {| mountRootFor := fun volume => path_join host "/Volumes" volume;
     isMounted := path_ismount host;
     isNetworkMounted := _is_network_drive host self |}.

Definition linux_policy (host : Host) (self : t) : PlatformPolicy :=
  {| mountRootFor := fun volume => path_join host "/mnt" volume;
     isMounted := path_ismount host;
     isNetworkMounted := _is_network_drive host self |}.

(** The Windows policy with the network-use query of
    [_is_network_drive]. *)
Definition windows_policy (host : Host) (self : t) : PlatformPolicy :=
  {| mountRootFor := fun volume => (volume ++ ":\")%string;
     isMounted := path_isdir host;
     isNetworkMounted := _is_network_drive host self |}.

(** The Windows policy [_find_suitable_cache_path_windows] follows: no
    volume counts as network-mounted. *)
Definition windows_policy_as_coded (host : Host) : PlatformPolicy :=
  {| mountRootFor := fun volume => (volume ++ ":\")%string;
     isMounted := path_isdir host;
     isNetworkMounted := fun _ => ret false |}.

(** The policy the constructor dispatches to, [None] on a system it does
    not support. *)
Definition policy_of (host : Host) (self : t) : option PlatformPolicy :=
  if String.eqb (system host) "Darwin" then Some (macos_policy host self)
  else if String.eqb (system host) "Linux" then Some (linux_policy host self)
  else if String.eqb (system host) "Windows" then
    Some (windows_policy_as_coded host)
  else None.

(** The finder the constructor dispatches to, [None] on a system it does
    not support. *)
Definition finder_of (host : Host) : option (t -> M (option string)) :=
  if String.eqb (system host) "Darwin" then
    Some (_find_suitable_cache_path_macos host)
  else if String.eqb (system host) "Linux" then
    Some (_find_suitable_cache_path_linux host)
  else if String.eqb (system host) "Windows" then
    Some (_find_suitable_cache_path_windows host)
  else None.

(** The instance the constructor starts from. *)
Definition fresh (volumes : list string) (dir : string) : t :=
  {| preferred_volumes := volumes; cache_dir := dir; cache_path := None |}.

(** The paths the constructor may ask [os.makedirs] for on [host]. *)
Definition targets (host : Host) (self : t) : list string :=
  match policy_of host self with
  | Some policy => cache_paths host self policy
  | None => []
  end.

(** The directories above [d] that [os.makedirs] may have to make, nearest
    first. *)
Fixpoint ancestors (host : Host) (fuel : nat) (d : string) : list string :=
  match parent_key host d, fuel with
  | Some parent, S n => parent :: ancestors host n parent
  | _, _ => []
  end.

(** The directories [os.makedirs(path)] may make: [path] under the name
    the state knows it by, and the directories above it. *)
Definition lineage (host : Host) (path : string) : list string :=
  dir_key host path
  :: ancestors host (String.length (dir_key host path)) (dir_key host path).

(** [x] occurs in [l] as a contiguous, case-sensitive substring. *)
Definition occurs_in (x l : string) : Prop :=
  exists a c, l = (a ++ x ++ c)%string.

(** The answer of the network check when it gives one: it does not depend
    on the state. *)
Definition network_verdict (host : Host) (volume_path : string) : bool :=
  if String.eqb (system host) "Darwin" || String.eqb (system host) "Linux" then
    match command host ["mount"] with
    | Output out => mount_lines volume_path (Str.splitlines out)
    | _ => false
    end
  else if String.eqb (system host) "Windows" then
    match command host ["net"; "use"] with
    | Output out => Str.contains (Str.lower volume_path) (Str.lower out)
    | _ => false
    end
  else false.

(** The command the network check runs. *)
Definition network_calls (host : Host) : list Call :=
  if String.eqb (system host) "Darwin" || String.eqb (system host) "Linux" then
    [CheckOutput ["mount"]]
  else if String.eqb (system host) "Windows" then [CheckOutput ["net"; "use"]]
  else [].

(** The exception a command run by the network check ends with and the
    check has no handler for. *)
Definition query_failure (c : Completed) : option Exn :=
  match c with
  | NotStarted => Some OSError
  | Undecodable => Some ValueError
  | Output _ | ExitStatus => None
  end.

(** The exception the network check lets through on [host], if any. *)
Definition network_error (host : Host) : option Exn :=
  if String.eqb (system host) "Darwin" || String.eqb (system host) "Linux" then
    query_failure (command host ["mount"])
  else if String.eqb (system host) "Windows" then
    query_failure (command host ["net"; "use"])
  else None.

(** The marker file of the writability probe in directory [path]. *)
Definition marker (host : Host) (path : string) : string :=
  path_join host path ".write_test".

(** No NUL in [path], in its marker or in a directory [os.makedirs] may
    make for it. *)
Definition nul_free (host : Host) (path : string) : bool :=
  forallb (fun d => negb (Str.has_nul d))
          (path :: marker host path :: lineage host path).

(** The calls that only ask. *)
Definition query (c : Call) : Prop :=
  match c with
  | IsMount _ | IsDir _ | CheckOutput _ => True
  | _ => False
  end.

(** [m] changes nothing but the list of calls, to which it adds
    queries. *)
Definition asks_only {A : Type} (m : M A) : Prop :=
  forall s, exists r s',
    m s = (r, s') /\
    dirs s' = dirs s /\ files s' = files s /\ environ s' = environ s /\
    exists cs, calls s' = calls s ++ cs /\ Forall query cs.

(** What one call may do during a selection that started in state [s] and
    may use the directories [T]: queries are free, [os.makedirs] is only
    for a path of [T] that was no directory in [s], files are only touched
    at the marker of a path of [T], and [os.environ] is left alone. *)
Definition allowed (host : Host) (T : string -> Prop) (s : State) (c : Call)
  : Prop :=
  match c with
  | IsMount _ | IsDir _ | CheckOutput _ => True
  | MakeDirs p => T p /\ is_dir host s p = false
  | OpenW m | WriteF m _ | Remove m => exists p, T p /\ m = marker host p
  | SetEnv _ _ => False
  end.

(** What the writability probe leaves at its marker [m] when the
    directory is there: nothing changes when the file cannot be opened;
    otherwise [Some None] for no file and [Some (Some c)] for a file of
    content [c]. *)
Definition leftover (host : Host) (m : string) : option (option string) :=
  if may_open host m then
    if may_write host m then
      if may_remove host m then Some None else Some (Some "test")
    else Some (Some "")
  else None.

(** The file at [m] is as a probe would leave it. *)
Definition settled (host : Host) (fs : gmap string string) (m : string)
  : Prop :=
  match leftover host m with
  | Some x => fs !! m = x
  | None => True
  end.

(** [s'] is a state a selection over the directories [T] can reach from
    [s]: the directories of [s] are kept; a new directory belongs to the
    lineage of a path of [T] that was no directory in [s], is one
    [os.mkdir] may create, and has its parent in place; files change at
    markers only. *)
Record extends (host : Host) (T : string -> Prop) (s s' : State) : Prop := {
  ext_dirs_keep : dirs s ⊆ dirs s';
  ext_dirs_new : forall q, q ∈ dirs s' -> q ∉ dirs s ->
                 (exists p, T p /\ is_dir host s p = false /\
                            In q (lineage host p)) /\
                 q <> "" /\ Str.has_nul q = false /\
                 mkdir_allowed host q = true;
  ext_parents : forall q parent, q ∈ dirs s' -> q ∉ dirs s ->
                parent_key host q = Some parent -> parent ∈ dirs s';
  ext_files : forall q, (forall p, T p -> q <> marker host p) ->
              files s' !! q = files s !! q;
  ext_settled : forall m, settled host (files s) m ->
                settled host (files s') m;
  ext_environ : environ s' = environ s;
  ext_calls : exists new, calls s' = calls s ++ new /\
                          Forall (allowed host T s) new
}.

(** [t] can be the state in which a selection that started in [s] is run
    again: it keeps the directories of [s] and has, beyond them, only
    directories that [os.mkdir] is able to create and whose parent is in
    place. *)
Definition later (host : Host) (s t : State) : Prop :=
  dirs s ⊆ dirs t /\
  forall q, q ∈ dirs t -> q ∉ dirs s ->
    q <> "" /\ Str.has_nul q = false /\ mkdir_allowed host q = true /\
    forall parent, parent_key host q = Some parent -> parent ∈ dirs t.

(** Whatever [c] does stays within what a selection may do. *)
Definition frames {A : Type} (host : Host) (c : M A) : Prop :=
  forall s r s', c s = (r, s') -> extends host (fun _ => True) s s'.

(** Running [c] again, in a state [t] that already holds the directories
    and the probe leftovers of a first run from a state [s] that satisfies
    [pre], gives the result of the first run and changes neither
    directories, files nor environment. *)
Definition replays {A : Type} (host : Host) (pre : State -> Prop) (c : M A)
  : Prop :=
  forall s r s' t,
    pre s ->
    c s = (r, s') ->
    later host s t ->
    dirs s' ⊆ dirs t ->
    (forall m, settled host (files s') m -> settled host (files t) m) ->
    exists t',
      c t = (r, t') /\
      dirs t' = dirs t /\ files t' = files t /\ environ t' = environ t.

(** Every call [c] makes satisfies [P]. *)
Definition emits {A : Type} (P : Call -> Prop) (c : M A) : Prop :=
  forall s r s',
    c s = (r, s') ->
    exists new, calls s' = calls s ++ new /\ Forall P new.

(** The calls into [os] and [os.path] other than [os.path.ismount]: no
    subprocess, no mount point query, no assignment to [os.environ]. *)
Definition plain_file_call (c : Call) : Prop :=
  match c with
  | IsDir _ | MakeDirs _ | OpenW _ | WriteF _ _ | Remove _ => True
  | IsMount _ | CheckOutput _ | SetEnv _ _ => False
  end.

End Spec.

Import Spec.

(** ** Sample hosts *)
Module Samples.

Definition LF : string := String (ascii_of_nat 10) "".
Definition NUL : string := String (ascii_of_nat 0) "".

Definition mount_table : string :=
  ("/dev/disk1s1 on / (apfs, local, journaled)" ++ LF ++
   "/dev/disk3s1 on /Volumes/RAID (apfs, local, journaled)" ++ LF ++
   "//artist@nas/share on /Volumes/NAS (smbfs, nodev, nosuid)" ++ LF)%string.

Definition allow_all : string -> bool := fun _ => true.

(** A Mac with a local volume RAID and a network volume NAS. *)
Definition mac : Host :=
  {| system := "Darwin";
     home := "/Users/artist";
     mount_points := fun p =>
       String.eqb p "/Volumes/RAID" || String.eqb p "/Volumes/NAS";
     command := fun argv =>
       match argv with
       | ["mount"] => Output mount_table
       | _ => NotStarted
       end;
     ntpath_join := PosixPath.join;
     ntpath_split := PosixPath.split;
     mkdir_allowed := allow_all;
     may_open := allow_all;
     may_write := allow_all;
     may_remove := allow_all |}.

(** Its directories before the class runs. *)
Definition mac_disk : State :=
  {| dirs := {[ "/"; "/Volumes"; "/Volumes/RAID"; "/Volumes/NAS"; "/Users";
                "/Users/artist"; "/tmp" ]};
     files := ∅; environ := ∅; calls := [] |}.

(** The same directories once the cache directory on RAID is there. *)
Definition mac_with_cache : State :=
  add_dir "/Volumes/RAID/AppCache" mac_disk.

(** The same Mac with a full disk: files can be created, not written. *)
Definition mac_full_disk : Host :=
  {| system := "Darwin";
     home := "/Users/artist";
     mount_points := mount_points mac;
     command := command mac;
     ntpath_join := PosixPath.join;
     ntpath_split := PosixPath.split;
     mkdir_allowed := allow_all;
     may_open := allow_all;
     may_write := fun _ => false;
     may_remove := allow_all |}.

(** The same Mac whose [mount] command exits with an error. *)
Definition mac_mount_fails : Host :=
  {| system := "Darwin";
     home := "/Users/artist";
     mount_points := mount_points mac;
     command := fun _ => ExitStatus;
     ntpath_join := PosixPath.join;
     ntpath_split := PosixPath.split;
     mkdir_allowed := allow_all;
     may_open := allow_all;
     may_write := allow_all;
     may_remove := allow_all |}.

(** The same Mac without a [mount] command on its search path. *)
Definition mac_without_mount : Host :=
  {| system := "Darwin";
     home := "/Users/artist";
     mount_points := mount_points mac;
     command := fun _ => NotStarted;
     ntpath_join := PosixPath.join;
     ntpath_split := PosixPath.split;
     mkdir_allowed := allow_all;
     may_open := allow_all;
     may_write := allow_all;
     may_remove := allow_all |}.

Definition net_use_table : string :=
  ("Status       Local     Remote                    Network" ++ LF ++
   "OK           Z:\       \\nas\projects            Microsoft Windows Network"
   ++ LF)%string.

Fixpoint ends_with_backslash (a : string) : bool :=
  match a with
  | EmptyString => false
  | String c EmptyString => Ascii.eqb c "\"
  | String _ a' => ends_with_backslash a'
  end.

Fixpoint has_backslash (a : string) : bool :=
  match a with
  | EmptyString => false
  | String c a' => Ascii.eqb c "\" || has_backslash a'
  end.

(** The part of [a] up to its last backslash, and the part after it. *)
Fixpoint before_last_backslash (a : string) : string :=
  match a with
  | EmptyString => EmptyString
  | String c a' =>
      if has_backslash a' then String c (before_last_backslash a')
      else if Ascii.eqb c "\" then String c EmptyString
      else EmptyString
  end.

Fixpoint after_last_backslash (a : string) : string :=
  match a with
  | EmptyString => EmptyString
  | String c a' =>
      if has_backslash a' then after_last_backslash a'
      else if Ascii.eqb c "\" then a'
      else String c a'
  end.

Fixpoint strip_backslashes (a : string) : string :=
  match a with
  | EmptyString => EmptyString
  | String c a' =>
      match strip_backslashes a' with
      | EmptyString =>
          if Ascii.eqb c "\" then EmptyString else String c EmptyString
      | r => String c r
      end
  end.

Definition split_no_drive (a : string) : string * string :=
  let head := before_last_backslash a in
  ((if String.eqb (strip_backslashes head) "" then head
    else strip_backslashes head),
   after_last_backslash a).

(** [ntpath.split] on a path with a drive letter or without drive, with
    backslashes as separators. *)
Definition drive_split (p : string) : string * string :=
  match p with
  | String d (String colon rest) =>
      if Ascii.eqb colon ":" then
        let (head, tail) := split_no_drive rest in
        (String d (String colon head), tail)
      else split_no_drive p
  | _ => split_no_drive p
  end.

(** [ntpath.join] on a second component that has neither drive nor
    root. *)
Definition drive_join (a b : string) : string :=
  if String.eqb a "" || ends_with_backslash a then (a ++ b)%string
  else (a ++ "\" ++ b)%string.

(** A Windows machine whose drive Z: is a mapped network share. *)
Definition windows : Host :=
  {| system := "Windows";
     home := "C:\Users\artist";
     mount_points := fun _ => false;
     command := fun argv =>
       match argv with
       | ["net"; "use"] => Output net_use_table
       | _ => NotStarted
       end;
     ntpath_join := drive_join;
     ntpath_split := drive_split;
     mkdir_allowed := fun d =>
       negb (String.eqb d "Z:\" || String.eqb d "Y:\" || String.eqb d "Q:\"
             || String.eqb d "C:\");
     may_open := allow_all;
     may_write := allow_all;
     may_remove := allow_all |}.

(** Drives C: and Z: are accessible. *)
Definition windows_state : State :=
  {| dirs := {[ "C:\"; "C:\Users"; "C:\Users\artist"; "Z:\" ]};
     files := ∅; environ := ∅; calls := [] |}.

(** A system the class has no branch for. *)
Definition freebsd : Host :=
  {| system := "FreeBSD";
     home := "/home/artist";
     mount_points := allow_all;
     command := fun _ => Output "";
     ntpath_join := PosixPath.join;
     ntpath_split := PosixPath.split;
     mkdir_allowed := allow_all;
     may_open := allow_all;
     may_write := allow_all;
     may_remove := allow_all |}.

Definition empty_state : State :=
  {| dirs := ∅; files := ∅; environ := ∅; calls := [] |}.

(** A Linux workstation with a local disk under [/mnt/scratch] and an NFS
    export under [/mnt/projects]. *)
Definition linux_mount_table : string :=
  ("/dev/sda2 on / type ext4 (rw,relatime)" ++ LF ++
   "/dev/nvme0n1p1 on /mnt/scratch type ext4 (rw,relatime)" ++ LF ++
   "filer:/export/projects on /mnt/projects type nfs4 (rw,relatime)" ++ LF
  )%string.

Definition linux_box : Host :=
  {| system := "Linux";
     home := "/home/artist";
     mount_points := fun p =>
       String.eqb p "/mnt/scratch" || String.eqb p "/mnt/projects";
     command := fun argv =>
       match argv with
       | ["mount"] => Output linux_mount_table
       | _ => NotStarted
       end;
     ntpath_join := PosixPath.join;
     ntpath_split := PosixPath.split;
     mkdir_allowed := allow_all;
     may_open := allow_all;
     may_write := allow_all;
     may_remove := allow_all |}.

Definition linux_disk : State :=
  {| dirs := {[ "/"; "/mnt"; "/mnt/scratch"; "/mnt/projects"; "/home";
                "/home/artist" ]};
     files := ∅; environ := ∅; calls := [] |}.

(** A Mac whose only extra volume is a local disk named [confs]. *)
Definition confs_mount_table : string :=
  ("/dev/disk1s1 on / (apfs, local, journaled)" ++ LF ++
   "/dev/disk5s1 on /Volumes/confs (apfs, local, journaled)" ++ LF)%string.

Definition mac_confs : Host :=
  {| system := "Darwin";
     home := "/Users/artist";
     mount_points := fun p => String.eqb p "/Volumes/confs";
     command := fun argv =>
       match argv with
       | ["mount"] => Output confs_mount_table
       | _ => NotStarted
       end;
     ntpath_join := PosixPath.join;
     ntpath_split := PosixPath.split;
     mkdir_allowed := allow_all;
     may_open := allow_all;
     may_write := allow_all;
     may_remove := allow_all |}.

Definition confs_disk : State :=
  {| dirs := {[ "/"; "/Volumes"; "/Volumes/confs"; "/Users";
                "/Users/artist" ]};
     files := ∅; environ := ∅; calls := [] |}.

(** A Mac on which the share RAID2 is listed before the local disk
    RAID. *)
Definition shadow_mount_table : string :=
  ("/dev/disk1s1 on / (apfs, local, journaled)" ++ LF ++
   "//artist@nas/share on /Volumes/RAID2 (smbfs, nodev, nosuid)" ++ LF ++
   "/dev/disk3s1 on /Volumes/RAID (apfs, local, journaled)" ++ LF)%string.

Definition mac_shadowed : Host :=
  {| system := "Darwin";
     home := "/Users/artist";
     mount_points := fun p =>
       String.eqb p "/Volumes/RAID" || String.eqb p "/Volumes/RAID2";
     command := fun argv =>
       match argv with
       | ["mount"] => Output shadow_mount_table
       | _ => NotStarted
       end;
     ntpath_join := PosixPath.join;
     ntpath_split := PosixPath.split;
     mkdir_allowed := allow_all;
     may_open := allow_all;
     may_write := allow_all;
     may_remove := allow_all |}.

Definition shadowed_disk : State :=
  {| dirs := {[ "/"; "/Volumes"; "/Volumes/RAID"; "/Volumes/RAID2"; "/Users";
                "/Users/artist" ]};
     files := ∅; environ := ∅; calls := [] |}.

End Samples.

Import Samples.

(** * Properties *)

(** ** The class at work *)

Example splitlines_mixed_breaks :
  Str.splitlines
    ("ab" ++ String (ascii_of_nat 10)
       ("cd" ++ String (ascii_of_nat 13)
          (String (ascii_of_nat 10) (String (ascii_of_nat 10) "e"))))%string
  = ["ab"; "cd"; ""; "e"].
Proof. reflexivity. Qed.

Example join_relative : PosixPath.join "/Volumes" "RAID" = "/Volumes/RAID".
Proof. reflexivity. Qed.

Example join_absolute : PosixPath.join "/Volumes/RAID" "/tmp/x" = "/tmp/x".
Proof. reflexivity. Qed.

Example dirname_plain :
  PosixPath.dirname "/Volumes/RAID/AppCache" = "/Volumes/RAID".
Proof. reflexivity. Qed.

Example dirname_root : PosixPath.dirname "/x" = "/".
Proof. reflexivity. Qed.

Example split_trailing :
  PosixPath.split "/Volumes/RAID/" = ("/Volumes/RAID", "").
Proof. reflexivity. Qed.

(** The directories [os.makedirs] may have to make for a nested cache
    directory. *)
Example lineage_nested :
  lineage mac "/Volumes/RAID/_caches/nuke/"
  = ["/Volumes/RAID/_caches/nuke"; "/Volumes/RAID/_caches"; "/Volumes/RAID";
     "/Volumes"; "/"].
Proof. reflexivity. Qed.

Example lineage_windows :
  lineage windows "C:\Users\artist\NukeCache"
  = ["C:\Users\artist\NukeCache"; "C:\Users\artist"; "C:\Users"; "C:\"].
Proof. reflexivity. Qed.

(** An unmounted volume is passed over for the next one. *)
Example unmounted_then_local :
  fst (__init__ mac ["FastSSD"; "RAID"] "AppCache" mac_disk)
  = Ok {| preferred_volumes := ["FastSSD"; "RAID"]; cache_dir := "AppCache";
          cache_path := Some "/Volumes/RAID/AppCache" |}.
Proof. vm_compute. reflexivity. Qed.

(** With only a network volume the home directory is used. *)
Example network_only_uses_home :
  fst (__init__ mac ["NAS"] "AppCache" mac_disk)
  = Ok {| preferred_volumes := ["NAS"]; cache_dir := "AppCache";
          cache_path := Some "/Users/artist/AppCache" |}.
Proof. vm_compute. reflexivity. Qed.

(** ** The finders follow the specified algorithm *)

Lemma and_then_eq (a b : M bool) s :
  and_then a b s =
  match a s with
  | (Ok true, s1) => b s1
  | (Ok false, s1) => (Ok false, s1)
  | (Raise e, s1) => (Raise e, s1)
  end.
Proof.
  unfold and_then, bind. destruct (a s) as [[[|]|e] s1]; reflexivity.
Qed.

(** The accept-or-skip test of the finders is [candidate]. *)
Lemma macos_volumes_select host self volumes s :
  macos_volumes host self volumes s =
  select_volumes host self (macos_policy host self) volumes s.
Proof.
  revert s. induction volumes as [|v rest IH]; intros s; [reflexivity|].
  cbn [macos_volumes linux_volumes windows_volumes select_volumes]. unfold candidate, bind, ret; cbn [mountRootFor isMounted isNetworkMounted macos_policy linux_policy windows_policy_as_coded negb].
  destruct (path_ismount host _ s) as [[[|]|e] s1]; cbn [negb]; auto.
  destruct (_is_network_drive host self _ s1) as [[[|]|e] s2]; cbn [negb]; auto.
  rewrite and_then_eq.
  destruct (_ensure_directory host self _ s2) as [[[|]|e] s3]; cbn [negb]; auto.
  destruct (_is_writable host self _ s3) as [[[|]|e] s4]; cbn [negb]; auto.
Qed.

Lemma linux_volumes_select host self volumes s :
  linux_volumes host self volumes s =
  select_volumes host self (linux_policy host self) volumes s.
Proof.
  revert s. induction volumes as [|v rest IH]; intros s; [reflexivity|].
  cbn [macos_volumes linux_volumes windows_volumes select_volumes]. unfold candidate, bind, ret; cbn [mountRootFor isMounted isNetworkMounted macos_policy linux_policy windows_policy_as_coded negb].
  destruct (path_ismount host _ s) as [[[|]|e] s1]; cbn [negb]; auto.
  destruct (_is_network_drive host self _ s1) as [[[|]|e] s2]; cbn [negb]; auto.
  rewrite and_then_eq.
  destruct (_ensure_directory host self _ s2) as [[[|]|e] s3]; cbn [negb]; auto.
  destruct (_is_writable host self _ s3) as [[[|]|e] s4]; cbn [negb]; auto.
Qed.

Lemma windows_volumes_select host self volumes s :
  windows_volumes host self volumes s =
  select_volumes host self (windows_policy_as_coded host) volumes s.
Proof.
  revert s. induction volumes as [|v rest IH]; intros s; [reflexivity|].
  cbn [macos_volumes linux_volumes windows_volumes select_volumes]. unfold candidate, bind, ret; cbn [mountRootFor isMounted isNetworkMounted macos_policy linux_policy windows_policy_as_coded negb].
  destruct (path_isdir host _ s) as [[[|]|e] s1]; cbn [negb]; auto.
  unfold ret at 1. cbv beta iota. rewrite and_then_eq.
  destruct (_ensure_directory host self _ s1) as [[[|]|e] s3]; cbn [negb]; auto.
  destruct (_is_writable host self _ s3) as [[[|]|e] s4]; cbn [negb]; auto.
Qed.

Lemma home_fallback_select host self s :
  home_fallback host self s = home_candidate host self s.
Proof.
  unfold home_fallback, home_candidate, bind, ret. rewrite and_then_eq.
  destruct (_ensure_directory host self _ s) as [[[|]|e] s3]; cbn [negb]; auto.
Qed.

(** ** Strings and paths *)

Lemma startswith_spec s t :
  Str.startswith s t = true <-> exists r, t = (s ++ r)%string.
Proof.
  revert t. induction s as [|a s IH]; intros t; simpl.
  - split; [intros _; exists t; reflexivity | reflexivity].
  - destruct t as [|b t]; simpl.
    + split; [discriminate | intros [r Hr]; discriminate].
    + rewrite andb_true_iff, IH, Ascii.eqb_eq. split.
      * intros [-> [r ->]]. exists r. reflexivity.
      * intros [r Hr]. injection Hr as -> ->. split; [reflexivity | eauto].
Qed.

Lemma contains_spec s t :
  Str.contains s t = true <-> exists l r, t = (l ++ s ++ r)%string.
Proof.
  induction t as [|b t IH]; simpl.
  - rewrite orb_false_r, startswith_spec. split.
    + intros [r Hr]. exists "", r. exact Hr.
    + intros [l [r Hr]]. destruct l; simpl in Hr; [eauto | discriminate].
  - rewrite orb_true_iff, IH, startswith_spec. split.
    + intros [[r Hr] | [l [r Hr]]].
      * exists "", r. exact Hr.
      * exists (String b l), r. subst t. reflexivity.
    + intros [l [r Hr]]. destruct l as [|c l]; simpl in Hr.
      * left. eauto.
      * right. injection Hr as -> ->. eauto.
Qed.

Lemma append_nil_l (s : string) : ("" ++ s)%string = s.
Proof. reflexivity. Qed.

Lemma append_cons c (a b : string) :
  (String c a ++ b)%string = String c (a ++ b).
Proof. reflexivity. Qed.

Lemma head_to_last_sep_app a b :
  Str.contains "/" b = false ->
  PosixPath.head_to_last_sep (a ++ "/" ++ b) = (a ++ "/")%string.
Proof.
  intros Hb. induction a as [|c a IH].
  - rewrite !append_nil_l, append_cons, append_nil_l.
    cbn [PosixPath.head_to_last_sep]. rewrite Hb. reflexivity.
  - rewrite (append_cons c a). cbn [PosixPath.head_to_last_sep].
    replace (Str.contains "/" (a ++ "/" ++ b)) with true.
    + rewrite IH. reflexivity.
    + symmetry. apply contains_spec. exists a, b. reflexivity.
Qed.

Lemma ends_with_sep_cons c a :
  a <> "" -> Str.ends_with_sep (String c a) = Str.ends_with_sep a.
Proof. destruct a; [congruence | reflexivity]. Qed.

Lemma all_sep_app_sep a :
  a <> "" -> Str.ends_with_sep a = false ->
  PosixPath.all_sep (a ++ "/") = false.
Proof.
  induction a as [|c a IH]; [congruence|]. intros _ He.
  destruct a as [|d a].
  - cbn in He. rewrite append_cons, append_nil_l. cbn. rewrite He. reflexivity.
  - rewrite ends_with_sep_cons in He by discriminate.
    rewrite append_cons. cbn [PosixPath.all_sep].
    rewrite IH by (discriminate || assumption). apply andb_false_r.
Qed.

Lemma rstrip_sep_app_sep a :
  a <> "" -> Str.ends_with_sep a = false ->
  PosixPath.rstrip_sep (a ++ "/") = a.
Proof.
  induction a as [|c a IH]; [congruence|]. intros _ He.
  destruct a as [|d a].
  - cbn in He. rewrite append_cons, append_nil_l. cbn. rewrite He. reflexivity.
  - rewrite ends_with_sep_cons in He by discriminate.
    rewrite append_cons. cbn [PosixPath.rstrip_sep].
    rewrite IH by (discriminate || assumption). reflexivity.
Qed.

(** The parent of [a/b] is [a] when [b] is one component and [a] has no
    trailing separator. *)
Lemma dirname_join a b :
  a <> "" -> Str.ends_with_sep a = false -> Str.contains "/" b = false ->
  PosixPath.join a b = (a ++ "/" ++ b)%string /\
  PosixPath.dirname (PosixPath.join a b) = a.
Proof.
  intros Ha He Hb.
  assert (Hj : PosixPath.join a b = (a ++ "/" ++ b)%string).
  { unfold PosixPath.join.
    replace (Str.startswith "/" b) with false.
    - rewrite He. destruct a; [congruence | reflexivity].
    - symmetry. destruct (Str.startswith "/" b) eqn:E; [|reflexivity].
      apply startswith_spec in E as [r ->].
      rewrite <- Hb. symmetry. apply contains_spec. exists "", r. reflexivity. }
  split; [exact Hj|]. rewrite Hj. unfold PosixPath.dirname.
  rewrite head_to_last_sep_app by assumption.
  rewrite all_sep_app_sep by assumption.
  rewrite rstrip_sep_app_sep by assumption.
  destruct a; [congruence | reflexivity].
Qed.

(** ** Directories and their keys *)

Lemma is_dir_log host c s p : is_dir host (log c s) p = is_dir host s p.
Proof. reflexivity. Qed.

Lemma is_dir_true host s p :
  is_dir host s p = true <->
  p <> "" /\ Str.has_nul p = false /\ dir_key host p ∈ dirs s.
Proof.
  unfold is_dir. rewrite !andb_true_iff, !negb_true_iff, String.eqb_neq.
  rewrite bool_decide_eq_true. tauto.
Qed.

Lemma is_dir_mono host s s1 p :
  dirs s ⊆ dirs s1 -> is_dir host s p = true -> is_dir host s1 p = true.
Proof.
  intros Hsub H. apply is_dir_true in H as (Hne & Hnul & Hin).
  apply is_dir_true. auto.
Qed.

(** The directory of the marker of [p] is [p] itself. *)
Lemma dir_present_marker host s p :
  dir_present host s (marker host p)
  = String.eqb (dir_key host p) "" || bool_decide (dir_key host p ∈ dirs s).
Proof. reflexivity. Qed.

Lemma is_dir_present host s p :
  is_dir host s p = true -> dir_present host s (marker host p) = true.
Proof.
  intros H. apply is_dir_true in H as (_ & _ & Hin).
  rewrite dir_present_marker. apply orb_true_iff. right.
  apply bool_decide_eq_true. exact Hin.
Qed.

(** The parent of a directory has a shorter name. *)
Lemma parent_key_shorter host d parent :
  parent_key host d = Some parent ->
  (String.length parent < String.length d)%nat.
Proof.
  unfold parent_key. destruct (path_split host d) as [head tail].
  destruct (negb (String.eqb head "") && negb (String.eqb tail "") &&
            (String.length (dir_key host head) <? String.length d)%nat) eqn:E;
    [|discriminate].
  intros H. injection H as <-.
  apply andb_true_iff in E as [_ E]. apply Nat.ltb_lt in E. exact E.
Qed.

Lemma ancestors_shorter host fuel d q :
  In q (ancestors host fuel d) ->
  (String.length q < String.length d)%nat.
Proof.
  revert d. induction fuel as [|n IH]; intros d; cbn [ancestors].
  - destruct (parent_key host d); intros [].
  - destruct (parent_key host d) as [parent|] eqn:E; [|intros []].
    apply parent_key_shorter in E. intros [<- | Hin]; [exact E|].
    specialize (IH _ Hin). lia.
Qed.

(** ** os.makedirs *)

Lemma mkdir_key_cases host d s :
  (Str.has_nul d = true /\ mkdir_key host d s = (Raise ValueError, s)) \/
  (Str.has_nul d = false /\ (d ∈ dirs s) /\ mkdir_key host d s = (Ok tt, s)) \/
  (Str.has_nul d = false /\ (d ∉ dirs s) /\ d <> "" /\
   mkdir_allowed host d = true /\
   mkdir_key host d s = (Ok tt, add_dir d s)) \/
  (Str.has_nul d = false /\ (d ∉ dirs s) /\
   (d = "" \/ mkdir_allowed host d = false) /\
   mkdir_key host d s = (Raise OSError, s)).
Proof.
  unfold mkdir_key. destruct (Str.has_nul d); [left; auto|right].
  destruct (decide (d ∈ dirs s)) as [Hin | Hnin].
  - rewrite bool_decide_eq_true_2 by exact Hin. left. auto.
  - rewrite bool_decide_eq_false_2 by exact Hnin. right.
    destruct (String.eqb d "") eqn:E; cbn [negb andb].
    + apply String.eqb_eq in E. right. auto.
    + apply String.eqb_neq in E.
      destruct (mkdir_allowed host d) eqn:Ea; [left | right]; auto.
Qed.

Lemma later_refl host s : later host s s.
Proof. split; [reflexivity|]. intros q H1 H2. contradiction. Qed.

Lemma later_log host c s : later host s (log c s).
Proof. exact (later_refl host s). Qed.

(** What [os.mkdir] on [d] does to a state whose new directories are as
    [later] wants them, when the parent of [d] is in place. *)
Lemma mkdir_key_spec host d s0 s r s' :
  later host s0 s ->
  (forall parent, parent_key host d = Some parent -> parent ∈ dirs s) ->
  mkdir_key host d s = (r, s') ->
  files s' = files s /\ environ s' = environ s /\ calls s' = calls s /\
  later host s0 s' /\ dirs s ⊆ dirs s' /\
  (forall q, q ∈ dirs s' -> q ∉ dirs s -> q = d) /\
  (r = Ok tt -> (d ∈ dirs s') /\ Str.has_nul d = false) /\
  (forall e, r = Raise e ->
     s' = s /\ (e = OSError \/ e = ValueError /\ Str.has_nul d = true) /\
     (Str.has_nul d = true \/ d ∉ dirs s)).
Proof.
  intros L Hpar H.
  destruct (mkdir_key_cases host d s)
    as [(Hn & E) | [(Hn & Hin & E) | [(Hn & Hnin & Hne & Ha & E)
                                      | (Hn & Hnin & Hc & E)]]];
    rewrite H in E; injection E as -> ->.
  - split; [reflexivity|]. split; [reflexivity|]. split; [reflexivity|].
    split; [exact L|]. split; [reflexivity|].
    split; [intros q ? ?; contradiction|]. split; [discriminate|].
    intros e He. injection He as <-. auto.
  - split; [reflexivity|]. split; [reflexivity|]. split; [reflexivity|].
    split; [exact L|]. split; [reflexivity|].
    split; [intros q ? ?; contradiction|]. split; [auto | discriminate].
  - destruct L as [L1 L2]. cbn [add_dir dirs files environ calls].
    split; [reflexivity|]. split; [reflexivity|]. split; [reflexivity|].
    split; [|split; [apply union_subseteq_r|]].
    + split; [transitivity (dirs s); [exact L1 | apply union_subseteq_r]|].
      intros q Hq Hnq. apply elem_of_union in Hq as [Hq | Hq].
      * apply elem_of_singleton in Hq. subst q.
        split; [exact Hne|]. split; [exact Hn|]. split; [exact Ha|].
        intros parent Hp. apply elem_of_union_r, Hpar, Hp.
      * destruct (L2 q Hq Hnq) as (? & ? & ? & Hp).
        split; [assumption|]. split; [assumption|]. split; [assumption|].
        intros parent Hq'. apply elem_of_union_r, Hp, Hq'.
    + split.
      * intros q Hq Hnq. apply elem_of_union in Hq as [Hq | Hq];
          [apply elem_of_singleton in Hq; exact Hq | contradiction].
      * split; [|discriminate]. intros _. split; [|exact Hn].
        apply elem_of_union_l, elem_of_singleton. reflexivity.
  - split; [reflexivity|]. split; [reflexivity|]. split; [reflexivity|].
    split; [exact L|]. split; [reflexivity|].
    split; [intros q ? ?; contradiction|]. split; [discriminate|].
    intros e He. injection He as <-. auto.
Qed.

Lemma mkdir_key_leaf host fuel d s r s' :
  (forall parent, parent_key host d = Some parent -> parent ∈ dirs s) ->
  mkdir_key host d s = (r, s') ->
  files s' = files s /\ environ s' = environ s /\ calls s' = calls s /\
  later host s s' /\
  (forall q, q ∈ dirs s' -> q ∉ dirs s ->
     In q (d :: ancestors host fuel d)) /\
  (r = Ok tt -> (d ∈ dirs s') /\ Str.has_nul d = false) /\
  (forall e, r = Raise e ->
     (e = OSError \/
      e = ValueError /\
      exists q, In q (d :: ancestors host fuel d) /\ Str.has_nul q = true) /\
     ((d ∉ dirs s) -> d ∉ dirs s')).
Proof.
  intros Hpar H.
  destruct (mkdir_key_spec host d s s r s' (later_refl host s) Hpar H)
    as (Hf & He & Hc & L & _ & Hnew & Hok & Hraise).
  split; [exact Hf|]. split; [exact He|]. split; [exact Hc|].
  split; [exact L|]. split.
  { intros q Hq Hnq. left. symmetry. exact (Hnew q Hq Hnq). }
  split; [exact Hok|]. intros e Hr.
  destruct (Hraise e Hr) as (-> & Hkind & _). split; [|auto].
  destruct Hkind as [-> | [-> Hn]]; [left; reflexivity | right].
  split; [reflexivity|]. exists d. split; [left; reflexivity | exact Hn].
Qed.

(** The recursion of [os.makedirs]: what it leaves behind and how it
    ends. *)
Lemma make_chain_spec host fuel d s r s' :
  (String.length d <= fuel)%nat ->
  make_chain host fuel d s = (r, s') ->
  files s' = files s /\ environ s' = environ s /\ calls s' = calls s /\
  later host s s' /\
  (forall q, q ∈ dirs s' -> q ∉ dirs s ->
     In q (d :: ancestors host fuel d)) /\
  (r = Ok tt -> (d ∈ dirs s') /\ Str.has_nul d = false) /\
  (forall e, r = Raise e ->
     (e = OSError \/
      e = ValueError /\
      exists q, In q (d :: ancestors host fuel d) /\ Str.has_nul q = true) /\
     ((d ∉ dirs s) -> d ∉ dirs s')).
Proof.
  revert d s r s'. induction fuel as [|n IH]; intros d s r s' Hlen.
  - cbn [make_chain]. intros H. apply mkdir_key_leaf.
    + intros parent Hp. apply parent_key_shorter in Hp. lia.
    + destruct (parent_key host d); exact H.
  - cbn [make_chain]. destruct (parent_key host d) as [parent|] eqn:Ep.
    2:{ intros H. apply mkdir_key_leaf; [rewrite Ep; discriminate | exact H]. }
    assert (Hanc : ancestors host (S n) d = parent :: ancestors host n parent)
      by (cbn [ancestors]; rewrite Ep; reflexivity).
    destruct (decide (parent ∈ dirs s)) as [Hin | Hnin].
    { rewrite bool_decide_eq_true_2 by exact Hin. intros H.
      apply mkdir_key_leaf; [|exact H].
      intros parent' Hp. rewrite Ep in Hp. injection Hp as <-. exact Hin. }
    rewrite bool_decide_eq_false_2 by exact Hnin. unfold bind.
    assert (Hlen1 : (String.length parent <= n)%nat)
      by (apply parent_key_shorter in Ep; lia).
    destruct (make_chain host n parent s) as [[[]|e1] s1] eqn:E1.
    + destruct (IH parent s (Ok tt) s1 Hlen1 E1)
        as (Hf1 & He1 & Hc1 & L1 & Hnew1 & Hok1 & _).
      destruct (Hok1 eq_refl) as [Hp1 _]. intros H.
      destruct (mkdir_key_spec host d s s1 r s' L1) as
        (Hf & He & Hc & L & K & Hnew & Hok & Hraise); [|exact H|].
      { intros parent' Hp. rewrite Ep in Hp. injection Hp as <-. exact Hp1. }
      split; [congruence|]. split; [congruence|]. split; [congruence|].
      split; [exact L|]. split.
      { intros q Hq Hnq. destruct (decide (q ∈ dirs s1)) as [Hq1 | Hq1].
        - right. rewrite Hanc. exact (Hnew1 q Hq1 Hnq).
        - left. symmetry. exact (Hnew q Hq Hq1). }
      split; [exact Hok|]. intros e Hr.
      destruct (Hraise e Hr) as (-> & Hkind & Hd). split.
      * destruct Hkind as [-> | [-> Hn]]; [left; reflexivity | right].
        split; [reflexivity|]. exists d. split; [left; reflexivity | exact Hn].
      * intros Hnd Hd1. destruct Hd as [Hn | Hn]; [|contradiction].
        destruct L1 as [_ L1]. destruct (L1 d Hd1 Hnd) as (_ & Hn' & _).
        congruence.
    + intros H. injection H as <- <-.
      destruct (IH parent s (Raise e1) s1 Hlen1 E1)
        as (Hf1 & He1 & Hc1 & L1 & Hnew1 & _ & Hraise1).
      split; [exact Hf1|]. split; [exact He1|]. split; [exact Hc1|].
      split; [exact L1|]. split.
      { intros q Hq Hnq. right. rewrite Hanc. exact (Hnew1 q Hq Hnq). }
      split; [discriminate|]. intros e Hr. injection Hr as <-.
      destruct (Hraise1 e1 eq_refl) as [Hkind Hp1]. split.
      * destruct Hkind as [-> | [-> (q & Hq & Hn)]];
          [left; reflexivity | right].
        split; [reflexivity|]. exists q. split; [|exact Hn].
        right. rewrite Hanc. exact Hq.
      * intros Hnd Hd1. destruct L1 as [_ L1].
        destruct (L1 d Hd1 Hnd) as (_ & _ & _ & Hpar).
        exact (Hp1 Hnin (Hpar parent Ep)).
Qed.

(** [os.makedirs(path, exist_ok=True)] as a whole. *)
Lemma makedirs_spec host p s r s' :
  makedirs host p s = (r, s') ->
  files s' = files s /\ environ s' = environ s /\
  calls s' = calls s ++ [MakeDirs p] /\
  later host s s' /\
  (forall q, q ∈ dirs s' -> q ∉ dirs s -> In q (lineage host p)) /\
  (r = Ok tt -> is_dir host s' p = true) /\
  (forall e, r = Raise e ->
     (e = OSError \/ e = ValueError /\ nul_free host p = false) /\
     (is_dir host s p = false -> is_dir host s' p = false)).
Proof.
  unfold makedirs. destruct (String.eqb p "") eqn:Ee.
  { intros H. injection H as <- <-. cbn [log dirs files environ calls].
    split; [reflexivity|]. split; [reflexivity|]. split; [reflexivity|].
    split; [apply later_log|]. split; [intros q ? ?; contradiction|].
    split; [discriminate|]. intros e He. injection He as <-. auto. }
  apply String.eqb_neq in Ee.
  destruct (Str.has_nul p) eqn:En; cbn [andb].
  - assert (Hnf : nul_free host p = false)
      by (unfold nul_free; cbn [forallb]; rewrite En; reflexivity).
    assert (Hnd : forall st, is_dir host st p = false)
      by (intros st; unfold is_dir; rewrite En; cbn [negb];
          rewrite andb_false_r; reflexivity).
    destruct (Str.has_nul (dir_key host p)) eqn:Ek; cbn [negb].
    + intros H.
      destruct (make_chain_spec host _ _ _ _ _ (Nat.le_refl _) H)
        as (Hf & He & Hc & L & Hnew & Hok & Hraise).
      split; [exact Hf|]. split; [exact He|]. split; [exact Hc|].
      split; [exact L|]. split; [exact Hnew|]. split.
      * intros Hr. destruct (Hok Hr) as [_ Hn]. congruence.
      * intros e Hr. destruct (Hraise e Hr) as [Hkind _].
        split; [|auto]. destruct Hkind as [-> | [-> _]]; auto.
    + intros H. injection H as <- <-. cbn [log dirs files environ calls].
      split; [reflexivity|]. split; [reflexivity|]. split; [reflexivity|].
      split; [apply later_log|]. split; [intros q ? ?; contradiction|].
      split; [discriminate|]. intros e He. injection He as <-. auto.
  - intros H.
    destruct (make_chain_spec host _ _ _ _ _ (Nat.le_refl _) H)
      as (Hf & He & Hc & L & Hnew & Hok & Hraise).
    split; [exact Hf|]. split; [exact He|]. split; [exact Hc|].
    split; [exact L|]. split; [exact Hnew|]. split.
    + intros Hr. destruct (Hok Hr) as [Hin _]. apply is_dir_true. auto.
    + intros e Hr. destruct (Hraise e Hr) as [Hkind Hkeep]. split.
      * destruct Hkind as [-> | [-> (q & Hq & Hn)]]; [left; reflexivity|].
        right. split; [reflexivity|]. unfold nul_free.
        apply not_true_is_false. intros Hall.
        rewrite forallb_forall in Hall.
        specialize (Hall q (or_intror (or_intror Hq))).
        rewrite Hn in Hall. discriminate.
      * intros Hd. destruct (is_dir host s' p) eqn:Ed'; [|reflexivity].
        apply is_dir_true in Ed' as (_ & _ & Hin').
        exfalso. apply Hkeep; [|exact Hin'].
        intros Hin. assert (is_dir host s p = true)
          by (apply is_dir_true; auto). congruence.
Qed.

(** ** What each helper returns *)

(** On a directory that exists, [_ensure_directory] only asks. *)
Lemma ensure_directory_existing host self p s :
  is_dir host s p = true ->
  _ensure_directory host self p s = (Ok true, log (IsDir p) s).
Proof.
  intros H. unfold _ensure_directory, bind, path_isdir. rewrite H. reflexivity.
Qed.

(** On a path that is no directory it calls [os.makedirs] once, and
    reports whether that worked; only a [ValueError] gets through. *)
Lemma ensure_directory_missing host self p s r s' :
  is_dir host s p = false ->
  _ensure_directory host self p s = (r, s') ->
  files s' = files s /\ environ s' = environ s /\
  calls s' = calls s ++ [IsDir p; MakeDirs p] /\
  later host s s' /\
  (forall q, q ∈ dirs s' -> q ∉ dirs s -> In q (lineage host p)) /\
  (r = Ok true /\ is_dir host s' p = true \/
   r = Ok false /\ is_dir host s' p = false \/
   r = Raise ValueError /\ nul_free host p = false /\
   is_dir host s' p = false).
Proof.
  intros Hd. unfold _ensure_directory, bind, path_isdir, try_except.
  rewrite Hd.
  destruct (makedirs host p (log (IsDir p) s)) as [r1 s1] eqn:E.
  destruct (makedirs_spec host p _ r1 s1 E)
    as (Hf & He & Hc & L & Hnew & Hok & Hraise).
  cbn [log dirs files environ calls] in Hf, He, Hc.
  rewrite <- app_assoc in Hc. cbn [app] in Hc.
  destruct r1 as [[]|e].
  - unfold ret. intros H. injection H as <- <-.
    split; [exact Hf|]. split; [exact He|]. split; [exact Hc|].
    split; [exact L|]. split; [exact Hnew|]. left. auto.
  - destruct (Hraise e eq_refl) as [Hkind Hkeep].
    specialize (Hkeep Hd).
    destruct Hkind as [-> | [-> Hn]]; cbn [Exn_eqb]; unfold ret;
      intros H; injection H as <- <-;
      (split; [exact Hf|]); (split; [exact He|]); (split; [exact Hc|]);
      (split; [exact L|]); (split; [exact Hnew|]); right; [left | right];
      auto.
Qed.

(** Either way. *)
Lemma ensure_directory_spec host self p s r s' :
  _ensure_directory host self p s = (r, s') ->
  files s' = files s /\ environ s' = environ s /\
  later host s s' /\
  (forall q, q ∈ dirs s' -> q ∉ dirs s -> In q (lineage host p)) /\
  (r = Ok true /\ is_dir host s' p = true \/
   r = Ok false /\ is_dir host s' p = false \/
   r = Raise ValueError /\ nul_free host p = false /\
   is_dir host s' p = false) /\
  (is_dir host s p = true /\ s' = log (IsDir p) s \/
   is_dir host s p = false /\ calls s' = calls s ++ [IsDir p; MakeDirs p]).
Proof.
  intros H. destruct (is_dir host s p) eqn:Hd.
  - rewrite ensure_directory_existing in H by exact Hd.
    injection H as <- <-. cbn [log dirs files environ calls].
    split; [reflexivity|]. split; [reflexivity|]. split; [apply later_log|].
    split; [intros q ? ?; contradiction|]. split; [|auto].
    left. split; [reflexivity|]. rewrite is_dir_log. exact Hd.
  - destruct (ensure_directory_missing host self p s r s' Hd H)
      as (Hf & He & Hc & L & Hnew & Hr). auto 10.
Qed.

(** A directory it reports usable is there. *)
Lemma ensure_directory_true host self p s s' :
  _ensure_directory host self p s = (Ok true, s') ->
  is_dir host s' p = true.
Proof.
  intros H. destruct (ensure_directory_spec host self p s _ s' H)
    as (_ & _ & _ & _ & Hr & _).
  destruct Hr as [[_ Hd] | [[Hr _] | [Hr _]]]; [exact Hd | |]; discriminate.
Qed.

(** The writability probe, case by case. *)
Lemma is_writable_cases host self p s :
  let m := marker host p in
  let opened := negb (Str.has_nul m) && may_open host m &&
                dir_present host s m in
  exists r s',
    _is_writable host self p s = (r, s') /\
    dirs s' = dirs s /\ environ s' = environ s /\
    r = (if Str.has_nul m then Raise ValueError
         else Ok (opened && may_write host m && may_remove host m)) /\
    files s' = (if opened then
                  match leftover host m with
                  | Some None => delete m (files s)
                  | Some (Some c) => <[m := c]> (files s)
                  | None => files s
                  end
                else files s) /\
    calls s' = calls s ++
               (if opened then
                  if may_write host m then
                    [OpenW m; WriteF m "test"; Remove m]
                  else [OpenW m; WriteF m "test"]
                else [OpenW m]).
Proof.
  intros m opened. subst opened.
  unfold _is_writable, leftover. fold (marker host p). fold m.
  unfold bind, try_except, open_w, write, remove.
  destruct (Str.has_nul m) eqn:En;
    cbn [log dirs files environ calls Exn_eqb ret andb negb];
    [eexists _, _; split; [reflexivity|]; auto 10|].
  destruct (may_open host m);
    cbn [log dirs files environ calls Exn_eqb ret andb];
    [|eexists _, _; split; [reflexivity|]; auto 10].
  destruct (dir_present host s m);
    cbn [log dirs files environ calls Exn_eqb ret andb];
    [|eexists _, _; split; [reflexivity|]; auto 10].
  destruct (may_write host m);
    cbn [log dirs files environ calls Exn_eqb ret andb].
  2:{ eexists _, _; split; [reflexivity|]. cbn [log dirs files environ calls].
      rewrite <- app_assoc. auto 10. }
  rewrite lookup_insert_eq. cbn [default].
  rewrite lookup_insert_eq, bool_decide_eq_true_2 by eauto.
  rewrite andb_true_r.
  destruct (may_remove host m);
    cbn [log dirs files environ calls Exn_eqb ret andb];
    eexists _, _; (split; [reflexivity|]); cbn [log dirs files environ calls];
    rewrite <- !app_assoc; repeat split; auto.
  - rewrite insert_insert_eq, delete_insert_eq. reflexivity.
  - rewrite insert_insert_eq. reflexivity.
Qed.

Lemma is_writable_true_calls host self p s s' :
  _is_writable host self p s = (Ok true, s') ->
  calls s' = calls s ++ [OpenW (marker host p); WriteF (marker host p) "test";
                         Remove (marker host p)] /\
  files s' = delete (marker host p) (files s) /\ dirs s' = dirs s.
Proof.
  intros H.
  destruct (is_writable_cases host self p s)
    as (r & s2 & E & Hd & _ & Hr & Hf & Hc).
  rewrite H in E. injection E as <- <-.
  destruct (Str.has_nul (marker host p)); [discriminate|].
  cbn [negb andb] in Hr, Hf, Hc. injection Hr as Hr. symmetry in Hr.
  apply andb_true_iff in Hr as [Hr E3]. apply andb_true_iff in Hr as [Ho E2].
  rewrite Ho in Hf, Hc. apply andb_true_iff in Ho as [E1 _].
  unfold leftover in Hf. rewrite E1, E2, E3 in Hf. rewrite E2 in Hc. auto.
Qed.

(** The network check: an answer that does not depend on the state, or
    the exception of a command that could not be run. *)
Lemma is_network_drive_eq host self p s :
  exists r s',
    _is_network_drive host self p s = (r, s') /\
    r = match network_error host with
        | Some e => Raise e
        | None => Ok (network_verdict host p)
        end /\
    dirs s' = dirs s /\ files s' = files s /\ environ s' = environ s /\
    calls s' = calls s ++ network_calls host.
Proof.
  unfold _is_network_drive, network_verdict, network_calls, network_error.
  destruct (String.eqb (system host) "Darwin" || String.eqb (system host) "Linux").
  - unfold try_except, bind, check_output.
    destruct (command host ["mount"]); cbn [Exn_eqb ret query_failure];
      eexists _, _; (split; [reflexivity|]); auto.
  - destruct (String.eqb (system host) "Windows").
    + unfold try_except, bind, check_output.
      destruct (command host ["net"; "use"]); cbn [Exn_eqb ret query_failure];
        eexists _, _; (split; [reflexivity|]); auto.
    + eexists _, _; split; [reflexivity|]. rewrite app_nil_r. auto.
Qed.

(** ** First match wins *)

(** Skipped volumes in front do not change what the rest of the list
    gives. *)
Lemma select_volumes_skip host self policy pre rest s s1 :
  reject_all host self policy pre s = Some s1 ->
  select_volumes host self policy (pre ++ rest) s
  = select_volumes host self policy rest s1.
Proof.
  revert s. induction pre as [|v pre IH]; intros s H.
  - injection H as ->. reflexivity.
  - cbn [reject_all] in H. cbn [app select_volumes]. unfold bind at 1.
    destruct (candidate host self policy v s) as [[[q|]|e] s2];
      try discriminate.
    apply IH. exact H.
Qed.

Lemma select_volumes_none host self policy volumes s s1 :
  select_volumes host self policy volumes s = (Ok None, s1) <->
  reject_all host self policy volumes s = Some s1.
Proof.
  revert s. induction volumes as [|v rest IH]; intros s.
  - cbn. split; intros H; injection H as ->; reflexivity.
  - cbn [reject_all select_volumes]. unfold bind at 1.
    destruct (candidate host self policy v s) as [[[q|]|e] s2].
    + cbn. split; discriminate.
    + apply IH.
    + split; discriminate.
Qed.

(** A volume that passes the four tests is the one [candidate] accepts. *)
Lemma candidate_accepts host self policy v s1 s2 s3 s4 s5 :
  let root := mountRootFor policy v in
  let p := path_join host root (cache_dir self) in
  isMounted policy root s1 = (Ok true, s2) ->
  isNetworkMounted policy root s2 = (Ok false, s3) ->
  _ensure_directory host self p s3 = (Ok true, s4) ->
  _is_writable host self p s4 = (Ok true, s5) ->
  candidate host self policy v s1 = (Ok (Some p), s5).
Proof.
  intros root p H1 H2 H3 H4. unfold candidate, bind. fold root. rewrite H1.
  cbn [negb]. rewrite H2. fold p. rewrite H3. cbn [negb]. rewrite H4.
  reflexivity.
Qed.

Lemma select_first_match host self policy pre v post s s1 s2 s3 s4 s5 :
  let root := mountRootFor policy v in
  let p := path_join host root (cache_dir self) in
  reject_all host self policy pre s = Some s1 ->
  isMounted policy root s1 = (Ok true, s2) ->
  isNetworkMounted policy root s2 = (Ok false, s3) ->
  _ensure_directory host self p s3 = (Ok true, s4) ->
  _is_writable host self p s4 = (Ok true, s5) ->
  select_volumes host self policy (pre ++ v :: post) s = (Ok (Some p), s5).
Proof.
  intros root p H0 H1 H2 H3 H4.
  rewrite (select_volumes_skip _ _ _ _ _ _ _ H0).
  cbn [select_volumes]. unfold bind.
  rewrite (candidate_accepts _ _ _ _ _ _ _ _ _ H1 H2 H3 H4). reflexivity.
Qed.

Lemma path_join_posix host a b :
  system host <> "Windows" -> path_join host a b = PosixPath.join a b.
Proof.
  intros H. unfold path_join. apply String.eqb_neq in H. rewrite H.
  reflexivity.
Qed.

(** The helpers never read the instance, so two instances with the same
    [cache_dir] treat a volume alike. *)
Lemma candidate_macos_self host self self' v s :
  cache_dir self' = cache_dir self ->
  candidate host self' (macos_policy host self') v s
  = candidate host self (macos_policy host self) v s.
Proof. intros H. unfold candidate. rewrite H. reflexivity. Qed.

Lemma reject_all_macos_self host self self' pre s :
  cache_dir self' = cache_dir self ->
  reject_all host self' (macos_policy host self') pre s
  = reject_all host self (macos_policy host self) pre s.
Proof.
  intros H. revert s. induction pre as [|v pre IH]; intros s; [reflexivity|].
  cbn [reject_all]. rewrite (candidate_macos_self _ _ _ _ _ H).
  destruct (candidate host self (macos_policy host self) v s)
    as [[[q|]|e] s2]; auto.
Qed.

Lemma find_macos_select host self s :
  _find_suitable_cache_path_macos host self s
  = select host self (macos_policy host self) s.
Proof.
  unfold _find_suitable_cache_path_macos, select, bind.
  rewrite macos_volumes_select.
  destruct (select_volumes _ _ _ _ s) as [[[q|]|e] s1]; auto.
  apply home_fallback_select.
Qed.

Lemma find_linux_select host self s :
  _find_suitable_cache_path_linux host self s
  = select host self (linux_policy host self) s.
Proof.
  unfold _find_suitable_cache_path_linux, select, bind.
  rewrite linux_volumes_select.
  destruct (select_volumes _ _ _ _ s) as [[[q|]|e] s1]; auto.
  apply home_fallback_select.
Qed.

Lemma find_windows_select host self s :
  _find_suitable_cache_path_windows host self s
  = select host self (windows_policy_as_coded host) s.
Proof.
  unfold _find_suitable_cache_path_windows, select, bind.
  rewrite windows_volumes_select.
  destruct (select_volumes _ _ _ _ s) as [[[q|]|e] s1]; auto.
  apply home_fallback_select.
Qed.

(** C1, as amended.  On macOS, let the volumes before index [i] all be
    skipped (leaving state [s1]) and let volume [i] be mounted, not a
    network volume, and have a cache directory that exists or can be created
    and passes the writability probe.  Then the finder returns the cache
    path [join(mountRoot(i), cache_dir)] of volume [i]; it stops in the state
    the probe of volume [i] leaves, the three calls of that probe being the
    last ones made, so nothing after [i] is examined and the volumes after
    [i] have no influence; and the parent of the returned path is the mount
    root whenever [cache_dir] is a single component and the mount root has
    no trailing separator. *)
Theorem first_suitable_volume_wins host self pre v post s s1 s2 s3 s4 s5 :
  let root := PosixPath.join "/Volumes" v in
  let p := PosixPath.join root (cache_dir self) in
  system host = "Darwin" ->
  preferred_volumes self = pre ++ v :: post ->
  reject_all host self (macos_policy host self) pre s = Some s1 ->
  path_ismount host root s1 = (Ok true, s2) ->
  _is_network_drive host self root s2 = (Ok false, s3) ->
  _ensure_directory host self p s3 = (Ok true, s4) ->
  _is_writable host self p s4 = (Ok true, s5) ->
  _find_suitable_cache_path_macos host self s = (Ok (Some p), s5) /\
  calls s5 = calls s4 ++ [OpenW (PosixPath.join p ".write_test");
                          WriteF (PosixPath.join p ".write_test") "test";
                          Remove (PosixPath.join p ".write_test")] /\
  (forall post',
     _find_suitable_cache_path_macos host
       {| preferred_volumes := pre ++ v :: post';
          cache_dir := cache_dir self; cache_path := cache_path self |} s
     = (Ok (Some p), s5)) /\
  (Str.contains "/" (cache_dir self) = false ->
   Str.ends_with_sep root = false ->
   PosixPath.dirname p = root).
Proof.
  intros root p Hsys Hvols H0 H1 H2 H3 H4.
  assert (Hposix : system host <> "Windows") by (rewrite Hsys; discriminate).
  assert (Hroot : path_join host "/Volumes" v = root)
    by apply path_join_posix, Hposix.
  assert (Hp : path_join host root (cache_dir self) = p)
    by apply path_join_posix, Hposix.
  assert (Hgen : forall self' post',
            cache_dir self' = cache_dir self ->
            preferred_volumes self' = pre ++ v :: post' ->
            _find_suitable_cache_path_macos host self' s = (Ok (Some p), s5)).
  { intros self' post' Hcd Hpv. rewrite find_macos_select. unfold select, bind.
    rewrite Hpv.
    erewrite (select_first_match host self' (macos_policy host self')
                pre v post' s s1 s2 s3 s4 s5).
    - cbn [mountRootFor macos_policy]. rewrite Hroot, Hcd, Hp. reflexivity.
    - rewrite (reject_all_macos_self host self self') by exact Hcd. exact H0.
    - cbn [mountRootFor isMounted macos_policy]. rewrite Hroot. exact H1.
    - cbn [mountRootFor isNetworkMounted macos_policy]. rewrite Hroot.
      exact H2.
    - cbn [mountRootFor macos_policy]. rewrite Hroot, Hcd, Hp. exact H3.
    - cbn [mountRootFor macos_policy]. rewrite Hroot, Hcd, Hp. exact H4. }
  split; [apply (Hgen self post); auto|].
  split.
  { apply is_writable_true_calls in H4 as [Hc _]. unfold marker in Hc.
    rewrite path_join_posix in Hc by exact Hposix. exact Hc. }
  split; [intros post'; apply (Hgen _ post'); reflexivity|].
  intros Hcd Hsep. apply dirname_join; auto.
  subst root. unfold PosixPath.join.
  destruct (Str.startswith "/" v) eqn:E.
  - apply startswith_spec in E as [r ->]. discriminate.
  - cbn. discriminate.
Qed.

Lemma first_suitable_volume_wins_witness :
  fst (_find_suitable_cache_path_macos mac
         (fresh ["FastSSD"; "RAID"; "NAS"] "AppCache") mac_disk)
  = Ok (Some "/Volumes/RAID/AppCache") /\
  PosixPath.dirname "/Volumes/RAID/AppCache" = "/Volumes/RAID".
Proof.
  edestruct (first_suitable_volume_wins mac
               (fresh ["FastSSD"; "RAID"; "NAS"] "AppCache")
               ["FastSSD"] "RAID" ["NAS"] mac_disk)
    as (H1 & _ & _ & H4).
  - reflexivity.
  - reflexivity.
  - vm_compute. reflexivity.
  - vm_compute. reflexivity.
  - vm_compute. reflexivity.
  - vm_compute. reflexivity.
  - vm_compute. reflexivity.
  - split.
    + rewrite H1. reflexivity.
    + apply H4; reflexivity.
Defined.

(** C1 as first stated fails: with the nested cache directory
    [_caches/nuke] the volume RAID is selected, and the parent of the path
    returned is not its mount root. *)
Lemma nested_cache_dir_parent_is_not_mount_root :
  fst (_find_suitable_cache_path_macos mac
         (fresh ["RAID"] "_caches/nuke") mac_disk)
  = Ok (Some (PosixPath.join (PosixPath.join "/Volumes" "RAID") "_caches/nuke"))
  /\ PosixPath.dirname
       (PosixPath.join (PosixPath.join "/Volumes" "RAID") "_caches/nuke")
     <> PosixPath.join "/Volumes" "RAID".
Proof. split; [vm_compute; reflexivity | vm_compute; discriminate]. Qed.

(** ** The home directory as a fallback *)

Lemma home_candidate_accepts host self s s1 s2 :
  let hp := path_join host (home host) (cache_dir self) in
  _ensure_directory host self hp s = (Ok true, s1) ->
  _is_writable host self hp s1 = (Ok true, s2) ->
  home_candidate host self s = (Ok (Some hp), s2).
Proof.
  intros hp H1 H2. unfold home_candidate, bind. fold hp. rewrite H1.
  cbn [negb]. rewrite H2. reflexivity.
Qed.

(** C9.  With no preferred volume, each finder returns the cache directory
    under the home directory as soon as that directory exists or can be
    created and passes the writability probe. *)
Theorem empty_preferences_fall_back_to_home host self s s1 s2 :
  let hp := path_join host (home host) (cache_dir self) in
  preferred_volumes self = [] ->
  _ensure_directory host self hp s = (Ok true, s1) ->
  _is_writable host self hp s1 = (Ok true, s2) ->
  _find_suitable_cache_path_macos host self s = (Ok (Some hp), s2) /\
  _find_suitable_cache_path_linux host self s = (Ok (Some hp), s2) /\
  _find_suitable_cache_path_windows host self s = (Ok (Some hp), s2) /\
  (system host <> "Windows" ->
   hp = PosixPath.join (home host) (cache_dir self)).
Proof.
  intros hp Hv H1 H2.
  pose proof (home_candidate_accepts host self s s1 s2 H1 H2) as Hh.
  rewrite find_macos_select, find_linux_select, find_windows_select.
  unfold select, bind. rewrite Hv. cbn [select_volumes ret].
  repeat split; try exact Hh. intros Hp. apply path_join_posix, Hp.
Qed.

Lemma empty_preferences_fall_back_to_home_witness :
  fst (_find_suitable_cache_path_macos mac (fresh [] "AppCache") mac_disk)
  = Ok (Some "/Users/artist/AppCache").
Proof.
  edestruct (empty_preferences_fall_back_to_home mac (fresh [] "AppCache")
               mac_disk) as (H & _).
  - reflexivity.
  - vm_compute. reflexivity.
  - vm_compute. reflexivity.
  - rewrite H. reflexivity.
Defined.

(** ** Systems without a branch *)

(** C10.  On a system that is neither Darwin, Linux nor Windows the
    constructor returns an instance whose [cache_path] is [None] and leaves
    the state as it found it: no directory, file or environment variable
    changes and no call is made. *)
Theorem unsupported_system_is_left_alone host volumes dir s :
  system host <> "Darwin" ->
  system host <> "Linux" ->
  system host <> "Windows" ->
  __init__ host volumes dir s
  = (Ok {| preferred_volumes := volumes; cache_dir := dir;
           cache_path := None |}, s).
Proof.
  intros Hd Hl Hw. unfold __init__, _handle_os_specific_cache_location.
  apply String.eqb_neq in Hd, Hl, Hw. rewrite Hd, Hl, Hw. reflexivity.
Qed.

Lemma unsupported_system_is_left_alone_witness :
  __init__ freebsd ["RAID"; "NAS"] "AppCache" empty_state
  = (Ok (fresh ["RAID"; "NAS"] "AppCache"), empty_state).
Proof.
  apply (unsupported_system_is_left_alone freebsd); vm_compute; discriminate.
Defined.

(** ** The network check *)

Lemma mount_lines_spec volume_path lines :
  (forall pre line post,
     lines = pre ++ line :: post ->
     (forall l, In l pre -> ~ occurs_in volume_path l) ->
     occurs_in volume_path line ->
     (mount_lines volume_path lines = true <->
      exists fs, In fs network_filesystems /\ occurs_in fs line)) /\
  ((forall l, In l lines -> ~ occurs_in volume_path l) ->
   mount_lines volume_path lines = false).
Proof.
  induction lines as [|l0 lines [IH1 IH2]].
  - split; [|reflexivity]. intros [|? ?] ? ? H; discriminate.
  - split.
    + intros pre line post Hsplit Hpre Hline. cbn [mount_lines].
      destruct pre as [|l1 pre]; cbn [app] in Hsplit;
        injection Hsplit as -> Hrest.
      * apply contains_spec in Hline. rewrite Hline.
        rewrite existsb_exists. split.
        -- intros [fs [Hin Hc]]. exists fs. split; [exact Hin|].
           apply contains_spec. exact Hc.
        -- intros [fs [Hin Hc]]. exists fs. split; [exact Hin|].
           apply contains_spec. exact Hc.
      * destruct (Str.contains volume_path l1) eqn:E.
        -- exfalso. apply (Hpre l1); [left; reflexivity|].
           apply contains_spec. exact E.
        -- apply (IH1 pre line post Hrest); [|exact Hline].
           intros l Hl. apply Hpre. right. exact Hl.
    + intros Hall. cbn [mount_lines].
      destruct (Str.contains volume_path l0) eqn:E.
      * exfalso. apply (Hall l0); [left; reflexivity|].
        apply contains_spec. exact E.
      * apply IH2. intros l Hl. apply Hall. right. exact Hl.
Qed.

(** C5.  On macOS and Linux, when [mount] prints [out], the network check
    answers from the first line of [out] in which the mount root occurs: the
    answer is true exactly when one of smbfs, nfs, afp, cifs, webdav occurs
    in that line too; when the mount root occurs in no line the answer is
    false.  Occurrence is that of a contiguous, case-sensitive substring. *)
Theorem network_check_reads_first_matching_line host self volume_path out s :
  system host = "Darwin" \/ system host = "Linux" ->
  command host ["mount"] = Output out ->
  exists b,
    _is_network_drive host self volume_path s
    = (Ok b, log (CheckOutput ["mount"]) s) /\
    (forall pre line post,
       Str.splitlines out = pre ++ line :: post ->
       (forall l, In l pre -> ~ occurs_in volume_path l) ->
       occurs_in volume_path line ->
       (b = true <->
        exists fs, In fs ["smbfs"; "nfs"; "afp"; "cifs"; "webdav"] /\
                   occurs_in fs line)) /\
    ((forall l, In l (Str.splitlines out) -> ~ occurs_in volume_path l) ->
     b = false).
Proof.
  intros Hsys Hout.
  exists (mount_lines volume_path (Str.splitlines out)). split.
  - unfold _is_network_drive, try_except, bind, check_output.
    replace (String.eqb (system host) "Darwin"
             || String.eqb (system host) "Linux") with true.
    + rewrite Hout. reflexivity.
    + symmetry. apply orb_true_iff.
      destruct Hsys as [-> | ->]; [left | right]; reflexivity.
  - apply mount_lines_spec.
Qed.

Lemma network_check_reads_first_matching_line_witness :
  exists b,
    _is_network_drive mac (fresh ["NAS"] "AppCache") "/Volumes/NAS" mac_disk
    = (Ok b, log (CheckOutput ["mount"]) mac_disk) /\
    (b = true <->
     exists fs, In fs ["smbfs"; "nfs"; "afp"; "cifs"; "webdav"] /\
       occurs_in fs
         "//artist@nas/share on /Volumes/NAS (smbfs, nodev, nosuid)").
Proof.
  destruct (network_check_reads_first_matching_line mac
              (fresh ["NAS"] "AppCache") "/Volumes/NAS" mount_table
              mac_disk) as [b [Hb [H1 _]]].
  - left. reflexivity.
  - reflexivity.
  - exists b. split; [exact Hb|].
    apply (H1 ["/dev/disk1s1 on / (apfs, local, journaled)";
               "/dev/disk3s1 on /Volumes/RAID (apfs, local, journaled)"]
              "//artist@nas/share on /Volumes/NAS (smbfs, nodev, nosuid)" []).
    + vm_compute. reflexivity.
    + intros l [<- | [<- | []]] Hc; apply contains_spec in Hc;
        vm_compute in Hc; discriminate.
    + apply contains_spec. vm_compute. reflexivity.
Defined.

(** C6.  When the [mount] command (macOS, Linux) or the [net use] command
    (Windows) exits with a nonzero status, the network check answers false
    and raises nothing; in the macOS and Linux finders a mounted volume then
    goes on to the directory and writability tests, which alone decide
    whether it is returned. *)
Theorem failed_query_counts_as_local host self volume_path s :
  (system host = "Darwin" \/ system host = "Linux" ->
   command host ["mount"] = ExitStatus ->
   _is_network_drive host self volume_path s
   = (Ok false, log (CheckOutput ["mount"]) s)) /\
  (system host = "Windows" ->
   command host ["net"; "use"] = ExitStatus ->
   _is_network_drive host self volume_path s
   = (Ok false, log (CheckOutput ["net"; "use"]) s)) /\
  (forall volume rest,
     system host = "Darwin" ->
     command host ["mount"] = ExitStatus ->
     let root := path_join host "/Volumes" volume in
     let cache_path := path_join host root (cache_dir self) in
     mount_points host root = true ->
     macos_volumes host self (volume :: rest) s
     = (ok <- and_then (_ensure_directory host self cache_path)
                       (_is_writable host self cache_path) ;;
        if ok then ret (Some cache_path) else macos_volumes host self rest)
         (log (CheckOutput ["mount"]) (log (IsMount root) s))) /\
  (forall volume rest,
     system host = "Linux" ->
     command host ["mount"] = ExitStatus ->
     let root := path_join host "/mnt" volume in
     let cache_path := path_join host root (cache_dir self) in
     mount_points host root = true ->
     linux_volumes host self (volume :: rest) s
     = (ok <- and_then (_ensure_directory host self cache_path)
                       (_is_writable host self cache_path) ;;
        if ok then ret (Some cache_path) else linux_volumes host self rest)
         (log (CheckOutput ["mount"]) (log (IsMount root) s))).
Proof.
  assert (Hposix : forall p st,
            system host = "Darwin" \/ system host = "Linux" ->
            command host ["mount"] = ExitStatus ->
            _is_network_drive host self p st
            = (Ok false, log (CheckOutput ["mount"]) st)).
  { intros p st Hsys Hcmd.
    unfold _is_network_drive, try_except, bind, check_output.
    replace (String.eqb (system host) "Darwin"
             || String.eqb (system host) "Linux") with true.
    - rewrite Hcmd. reflexivity.
    - symmetry. apply orb_true_iff.
      destruct Hsys as [-> | ->]; [left | right]; reflexivity. }
  split; [apply Hposix|]. split.
  - intros Hsys Hcmd.
    unfold _is_network_drive, try_except, bind, check_output.
    rewrite Hsys, Hcmd. reflexivity.
  - split; intros volume rest Hsys Hcmd root cache_path Hm.
    + cbn [macos_volumes]. fold root. fold cache_path.
      unfold bind at 1. unfold path_ismount. rewrite Hm. cbn [negb].
      unfold bind at 1. rewrite Hposix by auto. reflexivity.
    + cbn [linux_volumes]. fold root. fold cache_path.
      unfold bind at 1. unfold path_ismount. rewrite Hm. cbn [negb].
      unfold bind at 1. rewrite Hposix by auto. reflexivity.
Qed.

Lemma failed_query_counts_as_local_witness :
  _is_network_drive mac_mount_fails (fresh ["NAS"] "AppCache") "/Volumes/NAS"
    mac_disk
  = (Ok false, log (CheckOutput ["mount"]) mac_disk) /\
  fst (macos_volumes mac_mount_fails (fresh ["NAS"] "AppCache") ["NAS"]
         mac_disk)
  = Ok (Some "/Volumes/NAS/AppCache").
Proof.
  destruct (failed_query_counts_as_local mac_mount_fails
              (fresh ["NAS"] "AppCache") "/Volumes/NAS" mac_disk)
    as (H1 & _ & H3 & _).
  split.
  - apply H1; [left|]; reflexivity.
  - rewrite (H3 "NAS" []); reflexivity.
Defined.

(** ** The writability probe *)

(** C4, as amended.  The probe opens the marker [.write_test] in the
    directory for writing, writes ["test"] into it and removes it.  It
    touches neither the directories nor the environment, and no file but
    the marker.  It raises only when the marker path holds a NUL, a
    [ValueError] of the one [open] call, and then changes no file.
    Otherwise it answers, and answers true exactly when the three steps all
    work, the directory being there; then no marker is left and those three
    calls are all it did.  When the file cannot be opened (permission
    denied, read-only file system, no such directory) it answers false
    after that one call and the files are as before.  When the file is
    opened and the write fails, it answers false and the empty marker
    stays. *)
Theorem writability_probe_behaviour host self path s :
  let m := path_join host path ".write_test" in
  let opened := may_open host m && dir_present host s m in
  exists r s',
    _is_writable host self path s = (r, s') /\
    dirs s' = dirs s /\ environ s' = environ s /\
    (forall q, q <> m -> files s' !! q = files s !! q) /\
    (Str.has_nul m = true ->
     r = Raise ValueError /\ files s' = files s /\
     calls s' = calls s ++ [OpenW m]) /\
    (Str.has_nul m = false ->
     r = Ok (opened && may_write host m && may_remove host m) /\
     (r = Ok true ->
      files s' = delete m (files s) /\ files s' !! m = None /\
      calls s' = calls s ++ [OpenW m; WriteF m "test"; Remove m]) /\
     (opened = false ->
      r = Ok false /\ files s' = files s /\ calls s' = calls s ++ [OpenW m]) /\
     (opened = true -> may_write host m = false ->
      r = Ok false /\ files s' !! m = Some "" /\
      calls s' = calls s ++ [OpenW m; WriteF m "test"])).
Proof.
  intros m opened.
  destruct (is_writable_cases host self path s)
    as (r & s' & E & Hd & He & Hr & Hf & Hc).
  unfold marker in Hr, Hf, Hc. fold m in Hr, Hf, Hc.
  exists r, s'. split; [exact E|]. split; [exact Hd|]. split; [exact He|].
  split.
  { intros q Hq. rewrite Hf.
    destruct (negb (Str.has_nul m) && may_open host m && dir_present host s m);
      [|reflexivity].
    destruct (leftover host m) as [[c|]|];
      [rewrite lookup_insert_ne | rewrite lookup_delete_ne |]; auto. }
  split; intros Hn; rewrite Hn in Hr, Hf, Hc; cbn [negb andb] in Hr, Hf, Hc.
  { auto. }
  fold opened in Hr, Hf, Hc. split; [exact Hr|]. split; [|split].
  - rewrite Hr. intros Hb. injection Hb as Hb.
    apply andb_true_iff in Hb as [Hb H3]. apply andb_true_iff in Hb as [Ho H2].
    rewrite Ho in Hf, Hc. apply andb_true_iff in Ho as [H1 _].
    unfold leftover in Hf. rewrite H1, H2, H3 in Hf. rewrite H2 in Hc.
    split; [exact Hf|]. split; [|exact Hc]. rewrite Hf. apply lookup_delete_eq.
  - intros Ho. rewrite Ho in Hr, Hf, Hc. auto.
  - intros Ho H2. rewrite Ho in Hr, Hf, Hc. rewrite H2 in Hr, Hc.
    split; [exact Hr|]. split; [|exact Hc].
    apply andb_true_iff in Ho as [H1 _]. unfold leftover in Hf.
    rewrite H1, H2 in Hf. rewrite Hf. apply lookup_insert_eq.
Qed.

Lemma writability_probe_behaviour_witness :
  exists s',
    _is_writable mac (fresh ["RAID"] "AppCache") "/Volumes/RAID/AppCache"
      mac_with_cache = (Ok true, s') /\
    files s' !! "/Volumes/RAID/AppCache/.write_test" = None.
Proof.
  destruct (writability_probe_behaviour mac (fresh ["RAID"] "AppCache")
              "/Volumes/RAID/AppCache" mac_with_cache)
    as (r & s' & E & _ & _ & _ & _ & H).
  destruct H as (Hr & Hok & _); [reflexivity|].
  vm_compute in Hr. subst r. exists s'. split; [exact E|].
  apply Hok. reflexivity.
Defined.

(** C4 as first stated fails: on a full disk, in a cache directory that
    is there, the marker is created, the write fails, the probe answers
    false, and the empty marker stays behind. *)
Lemma failed_write_leaves_marker :
  let r := _is_writable mac_full_disk (fresh ["RAID"] "AppCache")
             "/Volumes/RAID/AppCache" mac_with_cache in
  is_dir mac_full_disk mac_with_cache "/Volumes/RAID/AppCache" = true /\
  fst r = Ok false /\
  files mac_with_cache !! "/Volumes/RAID/AppCache/.write_test" = None /\
  files (snd r) !! "/Volumes/RAID/AppCache/.write_test" = Some "".
Proof. vm_compute. auto. Qed.

(** ** Network volumes *)

(** The network check that answers true has run its command. *)
Lemma network_verdict_true host p :
  network_verdict host p = true -> network_error host = None.
Proof.
  unfold network_verdict, network_error.
  destruct (String.eqb (system host) "Darwin" || String.eqb (system host) "Linux").
  - destruct (command host ["mount"]); try discriminate; reflexivity.
  - destruct (String.eqb (system host) "Windows"); [|reflexivity].
    destruct (command host ["net"; "use"]); try discriminate; reflexivity.
Qed.

(** On macOS and Linux a mounted volume the network check flags is
    skipped, whatever its directory allows. *)
Lemma network_volume_is_skipped host self policy v s :
  policy = macos_policy host self \/ policy = linux_policy host self ->
  mount_points host (mountRootFor policy v) = true ->
  network_verdict host (mountRootFor policy v) = true ->
  exists s', candidate host self policy v s = (Ok None, s') /\
             dirs s' = dirs s /\ files s' = files s.
Proof.
  intros Hp Hm Hn. unfold candidate, bind.
  assert (Hmount : isMounted policy = path_ismount host)
    by (destruct Hp as [-> | ->]; reflexivity).
  assert (Hnet : isNetworkMounted policy = _is_network_drive host self)
    by (destruct Hp as [-> | ->]; reflexivity).
  rewrite Hmount, Hnet. unfold path_ismount at 1. rewrite Hm. cbn [negb].
  destruct (is_network_drive_eq host self (mountRootFor policy v)
              (log (IsMount (mountRootFor policy v)) s))
    as (r & s' & E & Hr & Hd & Hf & _).
  rewrite (network_verdict_true _ _ Hn), Hn in Hr. subst r.
  rewrite E. exists s'. auto.
Qed.

(** C2 fails on Windows: drive Z: is listed by [net use], the network
    check of the class flags it, and the constructor still returns its cache
    directory, because [_find_suitable_cache_path_windows] never asks. *)
Theorem windows_network_drive_is_selected :
  fst (_is_network_drive windows (fresh ["Z"] "NukeCache") "Z:\" windows_state)
  = Ok true /\
  fst (path_isdir windows "Z:\" windows_state) = Ok true /\
  fst (__init__ windows ["Z"] "NukeCache" windows_state)
  = Ok {| preferred_volumes := ["Z"]; cache_dir := "NukeCache";
          cache_path := Some "Z:\NukeCache" |} /\
  fst (select windows (fresh ["Z"] "NukeCache")
         (windows_policy windows (fresh ["Z"] "NukeCache")) windows_state)
  = Ok (Some "C:\Users\artist\NukeCache").
Proof. vm_compute. auto. Qed.

(** ** What a selection may change *)

Lemma extends_refl host T s : extends host T s s.
Proof.
  split; auto.
  - intros q H1 H2. contradiction.
  - intros q parent H1 H2. contradiction.
  - exists []. rewrite app_nil_r. split; [reflexivity | constructor].
Qed.

Lemma is_dir_earlier host s s1 p :
  dirs s ⊆ dirs s1 -> is_dir host s1 p = false -> is_dir host s p = false.
Proof.
  intros Hsub H. destruct (is_dir host s p) eqn:E; [|reflexivity].
  rewrite (is_dir_mono _ _ _ _ Hsub E) in H. discriminate.
Qed.

Lemma allowed_earlier host T s s1 c :
  dirs s ⊆ dirs s1 -> allowed host T s1 c -> allowed host T s c.
Proof.
  intros Hsub. destruct c; cbn; auto. intros [HT Hd]. split; [exact HT|].
  exact (is_dir_earlier _ _ _ _ Hsub Hd).
Qed.

Lemma extends_trans host T s s1 s2 :
  extends host T s s1 -> extends host T s1 s2 -> extends host T s s2.
Proof.
  intros [K1 N1 P1 F1 S1 E1 [new1 [C1 A1]]] [K2 N2 P2 F2 S2 E2 [new2 [C2 A2]]].
  split.
  - transitivity (dirs s1); assumption.
  - intros q Hq Hnq. destruct (decide (q ∈ dirs s1)) as [Hin | Hnin].
    + apply N1; assumption.
    + destruct (N2 q Hq Hnin) as ((p & HT & Hd & Hl) & Hrest).
      split; [|exact Hrest]. exists p. split; [exact HT|].
      split; [exact (is_dir_earlier _ _ _ _ K1 Hd) | exact Hl].
  - intros q parent Hq Hnq Hp. destruct (decide (q ∈ dirs s1)) as [Hin | Hnin].
    + apply K2. exact (P1 q parent Hin Hnq Hp).
    + exact (P2 q parent Hq Hnin Hp).
  - intros q Hq. rewrite F2, F1; auto.
  - auto.
  - congruence.
  - exists (new1 ++ new2). split.
    + rewrite C2, C1, app_assoc. reflexivity.
    + apply Forall_app. split; [exact A1|].
      eapply Forall_impl; [exact A2|]. intros c. apply allowed_earlier, K1.
Qed.

(** A state a selection reaches is one in which it can be run again. *)
Lemma extends_later host T s s' : extends host T s s' -> later host s s'.
Proof.
  intros X. split; [exact (ext_dirs_keep _ _ _ _ X)|].
  intros q Hq Hnq.
  destruct (ext_dirs_new _ _ _ _ X q Hq Hnq) as (_ & ? & ? & ?).
  split; [assumption|]. split; [assumption|]. split; [assumption|].
  intros parent Hp. exact (ext_parents _ _ _ _ X q parent Hq Hnq Hp).
Qed.

Lemma query_allowed host T s c : query c -> allowed host T s c.
Proof. destruct c; cbn; tauto. Qed.

Lemma asks_only_extends {A} (m : M A) host T s r s' :
  asks_only m -> m s = (r, s') -> extends host T s s'.
Proof.
  intros Hm H. destruct (Hm s) as (r2 & s2 & E & Hd & Hf & He & cs & Hc & Hq).
  rewrite H in E. injection E as -> ->. split.
  - rewrite Hd. reflexivity.
  - intros q. rewrite Hd. contradiction.
  - intros q parent. rewrite Hd. contradiction.
  - intros q _. rewrite Hf. reflexivity.
  - intros m0. rewrite Hf. auto.
  - exact He.
  - exists cs. split; [exact Hc|]. eapply Forall_impl; [exact Hq|].
    intros c. apply query_allowed.
Qed.

Lemma asks_only_log {A} (a : A) (c : Call) :
  query c -> asks_only (fun s => (Ok a, log c s)).
Proof.
  intros Hq s. exists (Ok a), (log c s). repeat split; auto.
  exists [c]. split; [reflexivity | constructor; auto].
Qed.

Lemma path_ismount_asks host p : asks_only (path_ismount host p).
Proof. apply (asks_only_log _ (IsMount p)). exact I. Qed.

Lemma path_isdir_asks host p : asks_only (path_isdir host p).
Proof.
  intros s. exists (Ok (is_dir host s p)), (log (IsDir p) s).
  repeat split; auto.
  exists [IsDir p]. split; [reflexivity | constructor; [exact I | constructor]].
Qed.

Lemma ret_asks {A} (a : A) : asks_only (ret a).
Proof.
  intros s. exists (Ok a), s. repeat split; auto. exists []. rewrite app_nil_r.
  split; [reflexivity | constructor].
Qed.

Lemma network_calls_query host : Forall query (network_calls host).
Proof.
  unfold network_calls.
  destruct (_ || _); [repeat constructor|].
  destruct (String.eqb _ _); repeat constructor.
Qed.

Lemma is_network_drive_asks host self p :
  asks_only (_is_network_drive host self p).
Proof.
  intros s. destruct (is_network_drive_eq host self p s)
    as (r & s' & E & _ & Hd & Hf & He & Hc).
  exists r, s'. repeat split; auto.
  exists (network_calls host). split; [exact Hc | apply network_calls_query].
Qed.

Lemma ensure_directory_extends host self (T : string -> Prop) p s r s' :
  T p -> _ensure_directory host self p s = (r, s') -> extends host T s s'.
Proof.
  intros HT H.
  destruct (ensure_directory_spec host self p s r s' H)
    as (Hf & He & [L1 L2] & Hnew & _ & Hc).
  destruct Hc as [[Hd ->] | [Hd Hc]].
  { eapply (asks_only_extends _ host T s (Ok true)).
    - apply (asks_only_log true (IsDir p)). exact I.
    - reflexivity. }
  split.
  - exact L1.
  - intros q Hq Hnq. destruct (L2 q Hq Hnq) as (? & ? & ? & _).
    split; [|auto]. exists p. auto.
  - intros q parent Hq Hnq Hp. destruct (L2 q Hq Hnq) as (_ & _ & _ & Hpar).
    exact (Hpar parent Hp).
  - intros q _. rewrite Hf. reflexivity.
  - intros m0. rewrite Hf. auto.
  - exact He.
  - exists [IsDir p; MakeDirs p]. split; [exact Hc|].
    repeat constructor; auto.
Qed.

Lemma is_writable_extends host self (T : string -> Prop) p s r s' :
  T p -> _is_writable host self p s = (r, s') ->
  extends host T s s' /\
  (Str.has_nul (marker host p) = false ->
   dir_present host s (marker host p) = true ->
   settled host (files s') (marker host p)).
Proof.
  intros HT H.
  destruct (is_writable_cases host self p s)
    as (r2 & s2 & H2 & Hd & He & _ & Hf & Hc).
  rewrite H in H2. injection H2 as <- <-.
  assert (Hother : forall q, q <> marker host p ->
                     files s' !! q = files s !! q).
  { intros q Hq. rewrite Hf. destruct (_ && _ && _); [|reflexivity].
    destruct (leftover host (marker host p))
      as [[c|]|]; [rewrite lookup_insert_ne | rewrite lookup_delete_ne |];
      auto. }
  assert (Hkeep : settled host (files s) (marker host p) ->
                  settled host (files s') (marker host p)).
  { unfold settled. rewrite Hf. destruct (_ && _ && _); [|auto].
    destruct (leftover host (marker host p)) as [[c|]|]; auto.
    - intros _. apply lookup_insert_eq.
    - intros _. apply lookup_delete_eq. }
  split.
  - split.
    + rewrite Hd. reflexivity.
    + intros q. rewrite Hd. contradiction.
    + intros q parent. rewrite Hd. contradiction.
    + intros q Hq. apply Hother. apply Hq, HT.
    + intros m0 Hm0. destruct (decide (m0 = marker host p)) as [-> | Hne].
      * exact (Hkeep Hm0).
      * unfold settled in *. rewrite Hother by exact Hne. exact Hm0.
    + exact He.
    + eexists. split; [exact Hc|].
      destruct (_ && _ && _); [destruct (may_write host _)|];
        repeat constructor; cbn; eauto.
  - intros Hn Hp. unfold settled. rewrite Hf, Hn, Hp. cbn [negb andb].
    unfold leftover.
    destruct (may_open host (marker host p)); [|exact I]. cbn [andb].
    destruct (may_write host (marker host p)).
    + destruct (may_remove host (marker host p)).
      * apply lookup_delete_eq.
      * apply lookup_insert_eq.
    + apply lookup_insert_eq.
Qed.

(** A probe that raises has met a NUL. *)
Lemma is_writable_raise host self p s e s' :
  _is_writable host self p s = (Raise e, s') ->
  e = ValueError /\ nul_free host p = false.
Proof.
  intros H.
  destruct (is_writable_cases host self p s) as (r2 & s2 & H2 & _ & _ & Hr & _).
  rewrite H in H2. injection H2 as <- <-.
  destruct (Str.has_nul (marker host p)) eqn:En; [|discriminate].
  injection Hr as ->. split; [reflexivity|].
  unfold nul_free. cbn [forallb]. rewrite En. cbn [negb].
  apply andb_false_iff. right. reflexivity.
Qed.

Section PolicyFrame.
Variables (host : Host) (self : t) (policy : PlatformPolicy).
Variable T : string -> Prop.
Variable E : Exn -> Prop.
Hypothesis mounted_asks : forall p, asks_only (isMounted policy p).
Hypothesis network_asks : forall p, asks_only (isNetworkMounted policy p).
Hypothesis mounted_raises :
  forall p s e s', isMounted policy p s = (Raise e, s') -> E e.
Hypothesis network_raises :
  forall p s e s', isNetworkMounted policy p s = (Raise e, s') -> E e.

Lemma candidate_extends v s r s' :
  T (path_join host (mountRootFor policy v) (cache_dir self)) ->
  candidate host self policy v s = (r, s') ->
  extends host T s s' /\
  (forall p, r = Ok (Some p) ->
     p = path_join host (mountRootFor policy v) (cache_dir self) /\
     p <> "" /\ is_dir host s' p = true) /\
  (forall e, r = Raise e ->
     E e \/
     e = ValueError /\
     nul_free host (path_join host (mountRootFor policy v) (cache_dir self))
     = false).
Proof.
  intros HT. unfold candidate, bind.
  destruct (isMounted policy _ s) as [r1 s1] eqn:E1.
  pose proof (asks_only_extends _ host T s r1 s1 (mounted_asks _) E1) as X1.
  destruct r1 as [b1|e1].
  2:{ intros H; injection H as <- <-. split; [exact X1|].
      split; [discriminate|]. intros e He. injection He as <-. left.
      exact (mounted_raises _ _ _ _ E1). }
  destruct b1; cbn [negb ret].
  2:{ intros H; injection H as <- <-. split; [exact X1|].
      split; discriminate. }
  destruct (isNetworkMounted policy _ s1) as [r2 s2] eqn:E2.
  pose proof (asks_only_extends _ host T s1 r2 s2 (network_asks _) E2) as X2.
  pose proof (extends_trans _ _ _ _ _ X1 X2) as X12.
  destruct r2 as [b2|e2].
  2:{ intros H; injection H as <- <-. split; [exact X12|].
      split; [discriminate|]. intros e He. injection He as <-. left.
      exact (network_raises _ _ _ _ E2). }
  destruct b2.
  { intros H; injection H as <- <-. split; [exact X12|]. split; discriminate. }
  destruct (_ensure_directory host self _ s2) as [r3 s3] eqn:E3.
  pose proof (ensure_directory_extends _ _ T _ _ _ _ HT E3) as X3.
  pose proof (extends_trans _ _ _ _ _ X12 X3) as X123.
  destruct (ensure_directory_spec host self _ s2 r3 s3 E3)
    as (_ & _ & _ & _ & Hr3 & _).
  destruct Hr3 as [[-> Hd3] | [[-> Hd3] | (-> & Hn3 & _)]]; cbn [negb].
  2:{ intros H; injection H as <- <-. split; [exact X123|].
      split; discriminate. }
  2:{ intros H; injection H as <- <-. split; [exact X123|].
      split; [discriminate|]. intros e He. injection He as <-. auto. }
  destruct (_is_writable host self _ s3) as [r4 s4] eqn:E4.
  destruct (is_writable_extends _ _ T _ _ _ _ HT E4) as [X4 _].
  pose proof (extends_trans _ _ _ _ _ X123 X4) as X.
  destruct r4 as [[|]|e4]; intros H; injection H as <- <-;
    (split; [exact X|]).
  - split; [|discriminate]. intros p Hp. injection Hp as <-.
    split; [reflexivity|].
    pose proof (is_dir_mono host s3 s4 _ (ext_dirs_keep _ _ _ _ X4) Hd3) as Hd4.
    split; [|exact Hd4]. apply is_dir_true in Hd4. tauto.
  - split; discriminate.
  - split; [discriminate|]. intros e He. injection He as <-. right.
    exact (is_writable_raise _ _ _ _ _ _ E4).
Qed.

Lemma select_volumes_extends volumes s r s' :
  (forall v, In v volumes ->
     T (path_join host (mountRootFor policy v) (cache_dir self))) ->
  select_volumes host self policy volumes s = (r, s') ->
  extends host T s s' /\
  (forall p, r = Ok (Some p) ->
     In p (map (fun v => path_join host (mountRootFor policy v)
                                   (cache_dir self)) volumes) /\
     p <> "" /\ is_dir host s' p = true) /\
  (forall e, r = Raise e ->
     E e \/
     e = ValueError /\
     exists p,
       In p (map (fun v => path_join host (mountRootFor policy v)
                                     (cache_dir self)) volumes) /\
       nul_free host p = false).
Proof.
  revert s. induction volumes as [|v rest IH]; intros s HT H.
  - injection H as <- <-. split; [apply extends_refl|]. split; discriminate.
  - cbn [select_volumes] in H. unfold bind in H.
    destruct (candidate host self policy v s) as [r1 s1] eqn:E1.
    destruct (candidate_extends v s r1 s1 (HT v (or_introl eq_refl)) E1)
      as (X1 & Hfound & Hraise).
    destruct r1 as [[p|]|e1].
    + injection H as <- <-. split; [exact X1|]. split; [|discriminate].
      intros q Hq. injection Hq as <-.
      destruct (Hfound p eq_refl) as (Hp & ? & ?).
      split; [left; symmetry; exact Hp | auto].
    + destruct (IH s1 (fun v' Hv' => HT v' (or_intror Hv')) H)
        as (X2 & Hfound' & Hraise').
      split; [exact (extends_trans _ _ _ _ _ X1 X2)|]. split.
      * intros q Hq. destruct (Hfound' q Hq) as (? & ? & ?).
        split; [right; assumption | auto].
      * intros e He. destruct (Hraise' e He) as [? | [-> (q & Hq & Hn)]];
          [left; assumption | right].
        split; [reflexivity|]. exists q. split; [right; exact Hq | exact Hn].
    + injection H as <- <-. split; [exact X1|]. split; [discriminate|].
      intros e He. injection He as <-.
      destruct (Hraise e1 eq_refl) as [? | [-> Hn]]; [left; assumption|right].
      split; [reflexivity|]. eexists. split; [left; reflexivity | exact Hn].
Qed.
End PolicyFrame.

Lemma home_candidate_extends host self (T : string -> Prop) s r s' :
  T (path_join host (home host) (cache_dir self)) ->
  home_candidate host self s = (r, s') ->
  extends host T s s' /\
  (forall p, r = Ok (Some p) ->
     p = path_join host (home host) (cache_dir self) /\
     p <> "" /\ is_dir host s' p = true) /\
  (forall e, r = Raise e ->
     e = ValueError /\
     nul_free host (path_join host (home host) (cache_dir self)) = false).
Proof.
  intros HT H.
  destruct (candidate_extends host self
              {| mountRootFor := fun _ => home host;
                 isMounted := fun _ => ret true;
                 isNetworkMounted := fun _ => ret false |} T
              (fun _ => False)
              (fun _ => ret_asks true) (fun _ => ret_asks false)) with
    (v := "") (s := s) (r := r) (s' := s') as (X & Hfound & Hraise).
  - intros p st e st' Hr. discriminate.
  - intros p st e st' Hr. discriminate.
  - exact HT.
  - exact H.
  - split; [exact X|]. split; [exact Hfound|].
    intros e He. destruct (Hraise e He) as [[] | ?]. assumption.
Qed.

Section SelectFrame.
Variables (host : Host) (self : t) (policy : PlatformPolicy).
Variable T : string -> Prop.
Variable E : Exn -> Prop.
Hypothesis mounted_asks : forall p, asks_only (isMounted policy p).
Hypothesis network_asks : forall p, asks_only (isNetworkMounted policy p).
Hypothesis mounted_raises :
  forall p s e s', isMounted policy p s = (Raise e, s') -> E e.
Hypothesis network_raises :
  forall p s e s', isNetworkMounted policy p s = (Raise e, s') -> E e.

Lemma select_extends s r s' :
  (forall p, In p (cache_paths host self policy) -> T p) ->
  select host self policy s = (r, s') ->
  extends host T s s' /\
  (forall p, r = Ok (Some p) ->
     In p (cache_paths host self policy) /\ p <> "" /\
     is_dir host s' p = true) /\
  (forall e, r = Raise e ->
     E e \/
     e = ValueError /\
     exists p, In p (cache_paths host self policy) /\
               nul_free host p = false).
Proof.
  intros HT H. unfold select, bind in H.
  destruct (select_volumes host self policy (preferred_volumes self) s)
    as [r1 s1] eqn:E1.
  destruct (select_volumes_extends host self policy T E mounted_asks
              network_asks mounted_raises network_raises _ s r1 s1
              (fun v Hv =>
                 HT _ (in_or_app _ _ _
                         (or_introl
                            (in_map (fun v => path_join host
                                                (mountRootFor policy v)
                                                (cache_dir self)) _ _ Hv))))
              E1) as (X1 & Hfound & Hraise).
  destruct r1 as [[p|]|e1].
  - injection H as <- <-. split; [exact X1|]. split; [|discriminate].
    intros q Hq. destruct (Hfound q Hq) as (? & ? & ?). split; [|auto].
    apply in_or_app. left. assumption.
  - assert (Hh : In (path_join host (home host) (cache_dir self))
                   (cache_paths host self policy))
      by (apply in_or_app; right; left; reflexivity).
    destruct (home_candidate_extends host self T s1 r s' (HT _ Hh) H)
      as (X2 & Hfound' & Hraise').
    split; [exact (extends_trans _ _ _ _ _ X1 X2)|]. split.
    + intros q Hq. destruct (Hfound' q Hq) as (-> & ? & ?). auto.
    + intros e He. destruct (Hraise' e He) as [-> Hn]. right.
      split; [reflexivity|]. eexists. split; [exact Hh | exact Hn].
  - injection H as <- <-. split; [exact X1|]. split; [discriminate|].
    intros e He. injection He as <-.
    destruct (Hraise e1 eq_refl) as [? | [-> (q & Hq & Hn)]];
      [left; assumption | right].
    split; [reflexivity|]. exists q. split; [|exact Hn].
    apply in_or_app. left. exact Hq.
Qed.
End SelectFrame.

(** The queries of the three platform policies: they only ask, and the
    one exception they let through is that of a [mount] command that could
    not be run. *)
Lemma policy_of_asks host self policy :
  policy_of host self = Some policy ->
  (forall p, asks_only (isMounted policy p)) /\
  (forall p, asks_only (isNetworkMounted policy p)) /\
  (forall p s e s', isMounted policy p s <> (Raise e, s')) /\
  (forall p s e s',
     isNetworkMounted policy p s = (Raise e, s') ->
     (system host = "Darwin" \/ system host = "Linux") /\
     query_failure (command host ["mount"]) = Some e).
Proof.
  assert (Hnet : forall p s e s',
            (system host = "Darwin" \/ system host = "Linux") ->
            _is_network_drive host self p s = (Raise e, s') ->
            (system host = "Darwin" \/ system host = "Linux") /\
            query_failure (command host ["mount"]) = Some e).
  { intros p s e s' Hsys H. split; [exact Hsys|].
    destruct (is_network_drive_eq host self p s) as (r & s2 & E & Hr & _).
    rewrite H in E. injection E as <- <-. unfold network_error in Hr.
    replace (String.eqb (system host) "Darwin"
             || String.eqb (system host) "Linux") with true in Hr.
    - destruct (query_failure (command host ["mount"])); congruence.
    - symmetry. apply orb_true_iff.
      destruct Hsys as [-> | ->]; [left | right]; reflexivity. }
  unfold policy_of.
  destruct (String.eqb (system host) "Darwin") eqn:Ed.
  { apply String.eqb_eq in Ed. intros H; injection H as <-; cbn.
    split; [apply path_ismount_asks|].
    split; [apply is_network_drive_asks|].
    split; [discriminate|]. intros p s e s'. apply Hnet. auto. }
  destruct (String.eqb (system host) "Linux") eqn:El.
  { apply String.eqb_eq in El. intros H; injection H as <-; cbn.
    split; [apply path_ismount_asks|].
    split; [apply is_network_drive_asks|].
    split; [discriminate|]. intros p s e s'. apply Hnet. auto. }
  destruct (String.eqb (system host) "Windows"); [|discriminate].
  intros H; injection H as <-; cbn.
  split; [apply path_isdir_asks|]. split; [intros p; apply ret_asks|].
  split; discriminate.
Qed.

(** The finder the constructor dispatches to is the specified selection
    under the policy of the platform. *)
Lemma finder_of_select host self :
  match finder_of host with
  | Some find =>
      exists policy,
        policy_of host self = Some policy /\
        forall s, find self s = select host self policy s
  | None => policy_of host self = None
  end.
Proof.
  unfold finder_of, policy_of.
  destruct (String.eqb (system host) "Darwin").
  { eexists. split; [reflexivity|]. apply find_macos_select. }
  destruct (String.eqb (system host) "Linux").
  { eexists. split; [reflexivity|]. apply find_linux_select. }
  destruct (String.eqb (system host) "Windows"); [|reflexivity].
  eexists. split; [reflexivity|]. apply find_windows_select.
Qed.

(** The constructor is the specified selection followed by the export of
    its result, or nothing at all. *)
Lemma init_eq host volumes dir s :
  __init__ host volumes dir s =
  match policy_of host (fresh volumes dir) with
  | Some policy =>
      (p <- select host (fresh volumes dir) policy ;;
       export_cache_path (set_cache_path (fresh volumes dir) p)) s
  | None => (Ok (fresh volumes dir), s)
  end.
Proof.
  unfold __init__, _handle_os_specific_cache_location, policy_of.
  fold (fresh volumes dir).
  destruct (String.eqb (system host) "Darwin").
  { unfold _set_cache_location_macos, bind. rewrite find_macos_select.
    reflexivity. }
  destruct (String.eqb (system host) "Linux").
  { unfold _set_cache_location_linux, bind. rewrite find_linux_select.
    reflexivity. }
  destruct (String.eqb (system host) "Windows").
  { unfold _set_cache_location_windows, bind. rewrite find_windows_select.
    reflexivity. }
  reflexivity.
Qed.

(** ** The constructor as a whole *)

(** What the export step does to a state. *)
Lemma export_cache_path_eq self s :
  export_cache_path self s =
  match cache_path self with
  | Some p =>
      if String.eqb p "" then (Ok self, s)
      else if Str.has_nul p then
        (Raise ValueError, log (SetEnv "NUKE_TEMP_DIR" p) s)
      else (Ok self,
            {| dirs := dirs s; files := files s;
               environ := <["NUKE_DISK_CACHE" := p]>
                            (<["NUKE_TEMP_DIR" := p]> (environ s));
               calls := (calls s ++ [SetEnv "NUKE_TEMP_DIR" p])
                        ++ [SetEnv "NUKE_DISK_CACHE" p] |})
  | None => (Ok self, s)
  end.
Proof.
  unfold export_cache_path, truthy.
  destruct (cache_path self) as [p|]; [|reflexivity].
  destruct (String.eqb p ""); [reflexivity|]. cbn [negb].
  change (default "" (Some p)) with p. unfold bind, setenv.
  change (Str.has_nul "NUKE_TEMP_DIR") with false.
  change (Str.has_nul "NUKE_DISK_CACHE") with false. cbn [orb].
  destruct (Str.has_nul p); reflexivity.
Qed.

(** What the platform's selection found, what the constructor exported
    and how the state grew. *)
Lemma init_outcome host volumes dir s r s' :
  __init__ host volumes dir s = (r, s') ->
  exists found s1,
    match policy_of host (fresh volumes dir) with
    | Some policy => select host (fresh volumes dir) policy s = (found, s1)
    | None => found = Ok None /\ s1 = s
    end /\
    extends host (fun p => In p (targets host (fresh volumes dir))) s s1 /\
    match found with
    | Ok (Some p) =>
        r = Ok (set_cache_path (fresh volumes dir) (Some p)) /\
        In p (targets host (fresh volumes dir)) /\ p <> "" /\
        is_dir host s1 p = true /\
        dirs s' = dirs s1 /\ files s' = files s1 /\
        environ s' = <["NUKE_DISK_CACHE" := p]>
                       (<["NUKE_TEMP_DIR" := p]> (environ s)) /\
        calls s' = calls s1 ++ [SetEnv "NUKE_TEMP_DIR" p;
                                SetEnv "NUKE_DISK_CACHE" p]
    | Ok None => r = Ok (fresh volumes dir) /\ s' = s1
    | Raise e =>
        r = Raise e /\ s' = s1 /\
        ((system host = "Darwin" \/ system host = "Linux") /\
         query_failure (command host ["mount"]) = Some e \/
         e = ValueError /\
         exists p, In p (targets host (fresh volumes dir)) /\
                   nul_free host p = false)
    end.
Proof.
  rewrite init_eq. unfold targets.
  destruct (policy_of host (fresh volumes dir)) as [policy|] eqn:Ep.
  2:{ intros H. injection H as <- <-. exists (Ok None), s.
      split; [auto|]. split; [apply extends_refl | auto]. }
  destruct (policy_of_asks _ _ _ Ep) as (Hm & Hn & Hmr & Hnr).
  unfold bind.
  destruct (select host (fresh volumes dir) policy s) as [found s1] eqn:E.
  destruct (select_extends host (fresh volumes dir) policy
              (fun p => In p (cache_paths host (fresh volumes dir) policy))
              (fun e => (system host = "Darwin" \/ system host = "Linux") /\
                        query_failure (command host ["mount"]) = Some e)
              Hm Hn) with (s := s) (r := found) (s' := s1)
    as (X & Hfound & Hraise).
  { intros p st e st' Hr. destruct (Hmr _ _ _ _ Hr). }
  { exact Hnr. }
  { auto. }
  { exact E. }
  intros H. exists found, s1. split; [reflexivity|]. split; [exact X|].
  destruct found as [[p|]|e].
  - destruct (Hfound p eq_refl) as (Hin & Hne & Hd).
    rewrite export_cache_path_eq in H. cbn [cache_path set_cache_path] in H.
    apply String.eqb_neq in Hne as Hne'. rewrite Hne' in H.
    apply is_dir_true in Hd as Hd'. destruct Hd' as (_ & Hnul & _).
    rewrite Hnul in H. injection H as <- <-.
    cbn [dirs files environ calls].
    rewrite (ext_environ _ _ _ _ X), <- app_assoc. auto 10.
  - injection H as <- <-. auto.
  - injection H as <- <-. auto.
Qed.

(** C7.  The constructor deletes no directory and creates only cache
    directories and what lies above them: every directory of the start
    state is one of the final state; a directory that is new is on the path
    to a target (the cache directory of a preferred volume or of the home
    directory) that was no directory at the start: it is the target or one
    of the directories above it, which [os.makedirs] makes on the way;
    files change at most at the marker of a target; the calls made are
    queries, calls of [os.makedirs] on a target that was no directory at the
    start, and the probe's calls on a marker, followed by at most the two
    assignments to [os.environ].  [_ensure_directory] on a directory that
    exists returns true after the one [os.path.isdir] query, without any
    write. *)
Theorem selection_only_creates_cache_directories host volumes dir s r s' :
  __init__ host volumes dir s = (r, s') ->
  let T := targets host (fresh volumes dir) in
  dirs s ⊆ dirs s' /\
  (forall q, is_dir host s q = true -> is_dir host s' q = true) /\
  (forall q, q ∈ dirs s' -> q ∉ dirs s ->
     exists p, In p T /\ is_dir host s p = false /\ In q (lineage host p)) /\
  (forall q, (forall p, In p T -> q <> marker host p) ->
             files s' !! q = files s !! q) /\
  (exists probes exports,
     calls s' = calls s ++ probes ++ exports /\
     Forall (allowed host (fun p => In p T) s) probes /\
     (exports = [] \/
      exists p, exports = [SetEnv "NUKE_TEMP_DIR" p;
                           SetEnv "NUKE_DISK_CACHE" p])) /\
  (forall self p st,
     is_dir host st p = true ->
     _ensure_directory host self p st = (Ok true, log (IsDir p) st)).
Proof.
  intros H T.
  destruct (init_outcome host volumes dir s r s' H)
    as (found & s1 & _ & X & Hcase).
  assert (Hs : dirs s' = dirs s1 /\ files s' = files s1).
  { destruct found as [[p|]|e].
    - destruct Hcase as (_ & _ & _ & _ & Hd & Hf & _). auto.
    - destruct Hcase as [_ ->]. auto.
    - destruct Hcase as (_ & -> & _). auto. }
  destruct Hs as [Hd Hf].
  destruct X as [K N P F S Ee [new [C A]]].
  split; [rewrite Hd; exact K|].
  split; [intros q Hq; apply (is_dir_mono host s); [rewrite Hd; exact K | exact Hq]|].
  split; [intros q Hq Hnq; rewrite Hd in Hq; apply (N q Hq Hnq)|].
  split; [intros q Hq; rewrite Hf; apply F, Hq|].
  split; [|intros self p st; apply ensure_directory_existing].
  exists new. destruct found as [[p|]|e].
  - destruct Hcase as (_ & _ & _ & _ & _ & _ & _ & Hc).
    eexists. split; [rewrite Hc, C, <- app_assoc; reflexivity|].
    split; [exact A | right; eauto].
  - destruct Hcase as [_ ->]. exists []. rewrite app_nil_r. auto.
  - destruct Hcase as (_ & -> & _). exists []. rewrite app_nil_r. auto.
Qed.

Lemma selection_only_creates_cache_directories_witness :
  let s' := snd (__init__ mac ["FastSSD"; "NAS"; "RAID"] "_caches/nuke"
                   mac_disk) in
  dirs mac_disk ⊆ dirs s' /\
  is_dir mac mac_disk "/Volumes/RAID/_caches" = false /\
  is_dir mac s' "/Volumes/RAID/_caches" = true /\
  (forall q, q ∈ dirs s' -> q ∉ dirs mac_disk ->
     exists p,
       In p (targets mac (fresh ["FastSSD"; "NAS"; "RAID"] "_caches/nuke")) /\
       In q (lineage mac p)).
Proof.
  intros s'.
  destruct (selection_only_creates_cache_directories mac
              ["FastSSD"; "NAS"; "RAID"] "_caches/nuke" mac_disk
              (fst (__init__ mac ["FastSSD"; "NAS"; "RAID"] "_caches/nuke"
                      mac_disk)) s')
    as (H1 & _ & H3 & _).
  - subst s'. vm_compute. reflexivity.
  - split; [exact H1|]. split; [vm_compute; reflexivity|].
    split; [vm_compute; reflexivity|].
    intros q Hq Hnq. destruct (H3 q Hq Hnq) as (p & Hp & _ & Hl). eauto.
Defined.

(** C3, as amended.  Whenever the constructor returns, the two variables
    are assigned exactly when the finder of the platform found a path.
    When the finder returns a path, the instance holds it, the path is not
    empty and both [NUKE_TEMP_DIR] and [NUKE_DISK_CACHE] are set to it by
    the last two calls, nothing else in the environment changing.  When it
    returns none, the instance has no cache path and the state is the one
    the finder left, in which the environment is as at the start and no
    assignment is among the calls made; this is so in particular when every
    preferred volume is skipped and the home directory fails too.  The
    constructor raises only what the finder raises, with the environment
    untouched: the exception of a [mount] command that could not be run
    (macOS, Linux), or the [ValueError] of a candidate path that holds a
    NUL. *)
Theorem environment_set_iff_path_found host volumes dir s r s' :
  __init__ host volumes dir s = (r, s') ->
  exists found s1,
    match finder_of host with
    | Some find => find (fresh volumes dir) s = (found, s1)
    | None => found = Ok None /\ s1 = s
    end /\
    environ s1 = environ s /\
    (exists probes,
       calls s1 = calls s ++ probes /\
       Forall (fun c => forall k v, c <> SetEnv k v) probes) /\
    match found with
    | Ok (Some p) =>
        r = Ok {| preferred_volumes := volumes; cache_dir := dir;
                  cache_path := Some p |} /\
        p <> "" /\
        environ s' = <["NUKE_DISK_CACHE" := p]>
                       (<["NUKE_TEMP_DIR" := p]> (environ s)) /\
        environ s' !! "NUKE_TEMP_DIR" = Some p /\
        environ s' !! "NUKE_DISK_CACHE" = Some p /\
        calls s' = calls s1 ++ [SetEnv "NUKE_TEMP_DIR" p;
                                SetEnv "NUKE_DISK_CACHE" p]
    | Ok None =>
        r = Ok {| preferred_volumes := volumes; cache_dir := dir;
                  cache_path := None |} /\
        s' = s1
    | Raise e =>
        r = Raise e /\ s' = s1 /\
        ((system host = "Darwin" \/ system host = "Linux") /\
         query_failure (command host ["mount"]) = Some e \/
         e = ValueError /\
         exists p, In p (targets host (fresh volumes dir)) /\
                   nul_free host p = false)
    end /\
    (forall policy sa sb,
       policy_of host (fresh volumes dir) = Some policy ->
       reject_all host (fresh volumes dir) policy volumes s = Some sa ->
       home_candidate host (fresh volumes dir) sa = (Ok None, sb) ->
       r = Ok {| preferred_volumes := volumes; cache_dir := dir;
                 cache_path := None |} /\
       s' = sb /\ environ s' = environ s).
Proof.
  intros H.
  destruct (init_outcome host volumes dir s r s' H)
    as (found & s1 & Hsel & X & Hcase).
  exists found, s1.
  pose proof (finder_of_select host (fresh volumes dir)) as Hfind.
  split.
  { destruct (finder_of host) as [find|].
    - destruct Hfind as (policy & Hp & Heq). rewrite Hp in Hsel.
      rewrite Heq. exact Hsel.
    - rewrite Hfind in Hsel. exact Hsel. }
  destruct X as [_ _ _ _ _ Ee [new [C A]]].
  split; [exact Ee|]. split.
  { exists new. split; [exact C|].
    eapply Forall_impl; [exact A|]. intros c Hc k v ->. exact Hc. }
  split.
  - destruct found as [[p|]|e].
    + destruct Hcase as (Hr & _ & Hne & _ & _ & _ & Henv & Hc).
      split; [exact Hr|]. split; [exact Hne|]. split; [exact Henv|].
      rewrite Henv.
      split; [rewrite lookup_insert_ne by discriminate; apply lookup_insert_eq|].
      split; [apply lookup_insert_eq | exact Hc].
    + exact Hcase.
    + exact Hcase.
  - intros policy sa sb Hp Hrej Hhome. rewrite Hp in Hsel.
    unfold select, bind in Hsel. cbn [preferred_volumes fresh] in Hsel.
    apply select_volumes_none in Hrej. rewrite Hrej, Hhome in Hsel.
    injection Hsel as <- <-. destruct Hcase as [-> ->]. auto.
Qed.

Lemma environment_set_iff_path_found_witness :
  (exists s',
     __init__ mac ["NAS"; "RAID"] "AppCache" mac_disk
     = (Ok {| preferred_volumes := ["NAS"; "RAID"]; cache_dir := "AppCache";
              cache_path := Some "/Volumes/RAID/AppCache" |}, s') /\
     environ s' !! "NUKE_TEMP_DIR" = Some "/Volumes/RAID/AppCache" /\
     environ s' !! "NUKE_DISK_CACHE" = Some "/Volumes/RAID/AppCache") /\
  (exists s',
     __init__ mac_full_disk ["RAID"] "AppCache" mac_disk
     = (Ok {| preferred_volumes := ["RAID"]; cache_dir := "AppCache";
              cache_path := None |}, s') /\
     environ s' = environ mac_disk).
Proof.
  split.
  - destruct (__init__ mac ["NAS"; "RAID"] "AppCache" mac_disk)
      as [r s'] eqn:E.
    destruct (environment_set_iff_path_found mac ["NAS"; "RAID"] "AppCache"
                mac_disk r s' E) as (found & s1 & Hfind & _ & _ & Hcase & _).
    vm_compute in Hfind. injection Hfind as <- <-.
    destruct Hcase as (-> & _ & _ & H1 & H2 & _).
    exists s'. auto.
  - destruct (__init__ mac_full_disk ["RAID"] "AppCache" mac_disk)
      as [r s'] eqn:E.
    destruct (environment_set_iff_path_found mac_full_disk ["RAID"] "AppCache"
                mac_disk r s' E) as (found & s1 & _ & _ & _ & _ & Hnone).
    edestruct (Hnone (macos_policy mac_full_disk (fresh ["RAID"] "AppCache")))
      as (-> & _ & Henv).
    + reflexivity.
    + vm_compute. reflexivity.
    + vm_compute. reflexivity.
    + exists s'. auto.
Defined.

(** C3 as first stated fails: the constructor raises when the [mount]
    command cannot be started, although the volume is mounted and usable,
    and it raises when no volume is preferred and the cache directory under
    the home directory has a NUL in its name. *)
Lemma constructor_lets_exceptions_through :
  fst (__init__ mac ["RAID"] "AppCache" mac_disk)
  = Ok {| preferred_volumes := ["RAID"]; cache_dir := "AppCache";
          cache_path := Some "/Volumes/RAID/AppCache" |} /\
  fst (__init__ mac_without_mount ["RAID"] "AppCache" mac_disk)
  = Raise OSError /\
  fst (__init__ mac [] ("App" ++ NUL ++ "Cache") mac_disk) = Raise ValueError.
Proof. vm_compute. auto. Qed.

(** ** Running the selection again *)

Lemma frames_ret {A} host (a : A) : frames host (ret a).
Proof. intros s r s' H. injection H as <- <-. apply extends_refl. Qed.

Lemma frames_bind {A B} host (c : M A) (k : A -> M B) :
  frames host c -> (forall a, frames host (k a)) -> frames host (bind c k).
Proof.
  intros Hc Hk s r s' H. unfold bind in H.
  destruct (c s) as [[a|e] s1] eqn:E.
  - eapply extends_trans; [exact (Hc _ _ _ E) | exact (Hk _ _ _ _ H)].
  - injection H as <- <-. exact (Hc _ _ _ E).
Qed.

Lemma frames_asks {A} host (c : M A) : asks_only c -> frames host c.
Proof.
  intros Hc s r s' H. exact (asks_only_extends c host _ s r s' Hc H).
Qed.

Lemma frames_ensure_directory host self p :
  frames host (_ensure_directory host self p).
Proof. intros s r s' H. exact (ensure_directory_extends _ _ _ _ _ _ _ I H). Qed.

Lemma frames_is_writable host self p :
  frames host (_is_writable host self p).
Proof.
  intros s r s' H. exact (proj1 (is_writable_extends _ _ _ _ _ _ _ I H)).
Qed.

Lemma later_step host s s' t t' :
  later host s t -> dirs s ⊆ dirs s' -> dirs s' ⊆ dirs t ->
  dirs t' = dirs t -> later host s' t'.
Proof.
  intros [L1 L2] K D Ht. split; [rewrite Ht; exact D|].
  intros q Hq Hnq. rewrite Ht in Hq |- *. apply L2; [exact Hq|].
  intros Hin. apply Hnq. exact (K q Hin).
Qed.

Lemma replays_ret {A} host pre (a : A) : replays host pre (ret a).
Proof.
  intros s r s' t _ H _ _ _. injection H as <- <-. exists t. auto.
Qed.

Lemma replays_weaken {A} host (pre pre' : State -> Prop) (c : M A) :
  (forall s, pre' s -> pre s) -> replays host pre c -> replays host pre' c.
Proof. intros Hw Hc s r s' t Hp. apply Hc, Hw, Hp. Qed.

(** Two steps in a row: the second may rely on what the first has
    established. *)
Lemma replays_bind {A B} host pre (post : A -> State -> Prop)
      (c : M A) (k : A -> M B) :
  frames host c -> (forall a, frames host (k a)) ->
  replays host pre c -> (forall a, replays host (post a) (k a)) ->
  (forall s a s1, pre s -> c s = (Ok a, s1) -> post a s1) ->
  replays host pre (bind c k).
Proof.
  intros Fc Fk Rc Rk Hpost s r s' t Hpre H L D S. unfold bind in H |- *.
  destruct (c s) as [[a|e] s1] eqn:E.
  - pose proof (Fc _ _ _ E) as X1. pose proof (Fk _ _ _ _ H) as X2.
    destruct (Rc s (Ok a) s1 t Hpre E L) as (t1 & E1 & Hd1 & Hf1 & He1).
    + transitivity (dirs s'); [exact (ext_dirs_keep _ _ _ _ X2) | exact D].
    + intros m Hm. apply S, (ext_settled _ _ _ _ X2), Hm.
    + rewrite E1.
      destruct (Rk a s1 r s' t1 (Hpost _ _ _ Hpre E) H)
        as (t' & E2 & Hd2 & Hf2 & He2).
      * eapply later_step; [exact L | exact (ext_dirs_keep _ _ _ _ X1) | |
                            exact Hd1].
        transitivity (dirs s'); [exact (ext_dirs_keep _ _ _ _ X2) | exact D].
      * rewrite Hd1. exact D.
      * rewrite Hf1. exact S.
      * exists t'. split; [exact E2|]. split; [congruence|].
        split; congruence.
  - injection H as <- <-.
    destruct (Rc s (Raise e) s1 t Hpre E L D S) as (t1 & E1 & H1).
    rewrite E1. exists t1. auto.
Qed.

Lemma replays_ismount host pre p : replays host pre (path_ismount host p).
Proof.
  intros s r s' t _ H _ _ _. injection H as <- <-.
  eexists; split; [reflexivity | auto].
Qed.

Lemma replays_is_network_drive host pre self p :
  replays host pre (_is_network_drive host self p).
Proof.
  intros s r s' t _ H _ _ _.
  destruct (is_network_drive_eq host self p s) as (r2 & s2 & E & Hr & _).
  rewrite H in E. injection E as <- _.
  destruct (is_network_drive_eq host self p t)
    as (r3 & t' & E' & Hr' & Hd & Hf & He & _).
  exists t'. rewrite E', Hr', <- Hr. auto.
Qed.

(** A path that [os.makedirs] cannot create is a directory in the second
    run exactly when it was one in the first. *)
Lemma replays_isdir host pre p :
  may_mkdir host p = false -> replays host pre (path_isdir host p).
Proof.
  intros Hp s r s' t _ H [L1 L2] _ _. injection H as <- <-.
  exists (log (IsDir p) t). split; [|auto].
  unfold path_isdir. f_equal. f_equal.
  destruct (is_dir host s p) eqn:Es.
  - apply (is_dir_mono host s); assumption.
  - destruct (is_dir host t p) eqn:Et; [|reflexivity].
    apply is_dir_true in Et as (Hne & Hnul & Hin).
    destruct (L2 (dir_key host p) Hin) as (_ & _ & Hmk & _).
    + intros Hin'.
      assert (is_dir host s p = true) by (apply is_dir_true; auto).
      congruence.
    + unfold may_mkdir in Hp. congruence.
Qed.

(** [os.mkdir] once more, in a state that holds what the first call
    left. *)
Lemma mkdir_key_replay host d s r s' t :
  mkdir_key host d s = (r, s') ->
  dirs s' ⊆ dirs t ->
  (d ∈ dirs t -> d ∉ dirs s ->
   d <> "" /\ Str.has_nul d = false /\ mkdir_allowed host d = true) ->
  mkdir_key host d t = (r, t) /\ ((d ∉ dirs s) -> r <> Ok tt -> d ∉ dirs t).
Proof.
  intros H D Hnew.
  destruct (mkdir_key_cases host d s)
    as [(Hn & E) | [(Hn & Hin & E) | [(Hn & Hnin & Hne & Ha & E)
                                      | (Hn & Hnin & Hc & E)]]];
    rewrite H in E; injection E as -> ->.
  - split; [unfold mkdir_key; rewrite Hn; reflexivity|].
    intros Hnin _ Hin. destruct (Hnew Hin Hnin) as (_ & Hn' & _). congruence.
  - split; [|intros _ Hr; exfalso; apply Hr; reflexivity].
    unfold mkdir_key. rewrite Hn.
    rewrite bool_decide_eq_true_2 by exact (D d Hin). reflexivity.
  - split; [|intros _ Hr; exfalso; apply Hr; reflexivity].
    unfold mkdir_key. rewrite Hn. rewrite bool_decide_eq_true_2; [reflexivity|].
    apply D. cbn [add_dir dirs]. apply elem_of_union_l, elem_of_singleton.
    reflexivity.
  - assert (Hnt : d ∉ dirs t).
    { intros Hin. destruct (Hnew Hin Hnin) as (Hne & _ & Ha).
      destruct Hc as [-> | Hc]; [apply Hne; reflexivity | congruence]. }
    split; [|auto]. unfold mkdir_key. rewrite Hn.
    rewrite bool_decide_eq_false_2 by exact Hnt.
    destruct Hc as [-> | Hc]; [reflexivity|]. rewrite Hc, andb_false_r.
    reflexivity.
Qed.

(** The recursion of [os.makedirs] once more: it ends as it did, and
    makes nothing. *)
Lemma make_chain_replay host fuel d s r s' t :
  (String.length d <= fuel)%nat ->
  make_chain host fuel d s = (r, s') ->
  later host s t -> dirs s' ⊆ dirs t ->
  make_chain host fuel d t = (r, t) /\
  ((d ∉ dirs s) -> r <> Ok tt -> d ∉ dirs t).
Proof.
  revert d s r s'. induction fuel as [|n IH]; intros d s r s' Hlen H L D.
  - cbn [make_chain] in H |- *.
    assert (H' : mkdir_key host d s = (r, s'))
      by (destruct (parent_key host d); exact H).
    destruct (mkdir_key_replay host d s r s' t H' D) as [E Hk].
    { intros Hin Hnin. destruct L as [_ L2].
      destruct (L2 d Hin Hnin) as (? & ? & ? & _). auto. }
    split; [|exact Hk]. destruct (parent_key host d); exact E.
  - cbn [make_chain] in H |- *.
    assert (Hleaf : forall s0 s0', mkdir_key host d s0 = (r, s0') ->
              dirs s ⊆ dirs s0 -> dirs s0' ⊆ dirs t ->
              mkdir_key host d t = (r, t) /\
              ((d ∉ dirs s0) -> r <> Ok tt -> d ∉ dirs t)).
    { intros s0 s0' H0 K0 D0. apply (mkdir_key_replay host d s0 r s0' t H0 D0).
      intros Hin Hnin. destruct L as [_ L2].
      destruct (L2 d Hin) as (? & ? & ? & _); [|auto].
      intros Hin'. apply Hnin, K0, Hin'. }
    destruct (parent_key host d) as [parent|] eqn:Ep.
    2:{ apply (Hleaf s s' H); [reflexivity | exact D]. }
    assert (Hlen1 : (String.length parent <= n)%nat)
      by (apply parent_key_shorter in Ep; lia).
    destruct (decide (parent ∈ dirs s)) as [Hin | Hnin].
    { rewrite bool_decide_eq_true_2 in H by exact Hin.
      rewrite bool_decide_eq_true_2 by exact (proj1 L parent Hin).
      apply (Hleaf s s' H); [reflexivity | exact D]. }
    rewrite bool_decide_eq_false_2 in H by exact Hnin. unfold bind in H.
    destruct (make_chain host n parent s) as [[[]|e1] s1] eqn:E1.
    + destruct (make_chain_spec host n parent s (Ok tt) s1 Hlen1 E1)
        as (_ & _ & _ & [K1 _] & Hnew1 & Hok1 & _).
      destruct (Hok1 eq_refl) as [Hp1 _].
      destruct (mkdir_key_spec host d s1 s1 r s' (later_refl host s1))
        as (_ & _ & _ & _ & K2 & _); [|exact H|].
      { intros parent' Hp. rewrite Ep in Hp. injection Hp as <-. exact Hp1. }
      rewrite bool_decide_eq_true_2 by exact (D parent (K2 parent Hp1)).
      destruct (Hleaf s1 s' H K1 D) as [E Hk]. split; [exact E|].
      intros Hnd. apply Hk. intros Hd1.
      pose proof (Hnew1 d Hd1 Hnd) as Hq.
      assert (String.length d < String.length d)%nat; [|lia].
      destruct Hq as [<- | Hq].
      * exact (parent_key_shorter _ _ _ Ep).
      * pose proof (ancestors_shorter _ _ _ _ Hq).
        pose proof (parent_key_shorter _ _ _ Ep). lia.
    + injection H as <- <-.
      destruct (IH parent s (Raise e1) s1 Hlen1 E1 L D) as [E Hk].
      assert (Hpt : parent ∉ dirs t) by (apply Hk; [exact Hnin | discriminate]).
      rewrite bool_decide_eq_false_2 by exact Hpt. unfold bind. rewrite E.
      split; [reflexivity|]. intros Hnd _ Hdt. destruct L as [_ L2].
      destruct (L2 d Hdt Hnd) as (_ & _ & _ & Hpar).
      exact (Hpt (Hpar parent Ep)).
Qed.

Lemma makedirs_replay host p s r s' t :
  makedirs host p s = (r, s') ->
  later host s t -> dirs s' ⊆ dirs t ->
  makedirs host p t = (r, log (MakeDirs p) t) /\
  (is_dir host s p = false -> r <> Ok tt -> is_dir host t p = false).
Proof.
  unfold makedirs. intros H L D. destruct (String.eqb p "") eqn:Ee.
  { injection H as <- <-. split; [reflexivity|]. intros _ _.
    apply String.eqb_eq in Ee. subst p. reflexivity. }
  assert (Hnul : Str.has_nul p = true -> is_dir host t p = false).
  { intros Hn. unfold is_dir. rewrite Hn. cbn [negb].
    rewrite andb_false_r. reflexivity. }
  destruct (Str.has_nul p && negb (Str.has_nul (dir_key host p))) eqn:En.
  { injection H as <- <-. split; [reflexivity|]. intros _ _.
    apply andb_true_iff in En as [En _]. auto. }
  destruct (make_chain_replay host _ _ _ r s' (log (MakeDirs p) t)
              (Nat.le_refl _) H) as [E Hk]; [exact L | exact D |].
  split; [exact E|]. intros Hd Hr.
  destruct (Str.has_nul p) eqn:Hn; [auto|].
  destruct (is_dir host t p) eqn:Et; [|reflexivity].
  apply is_dir_true in Et as (Hne & _ & Hin). exfalso.
  apply (Hk); [|exact Hr|exact Hin].
  intros Hin'. cbn [log dirs] in Hin'.
  assert (is_dir host s p = true) by (apply is_dir_true; auto). congruence.
Qed.

Lemma replays_ensure_directory host pre self p :
  replays host pre (_ensure_directory host self p).
Proof.
  intros s r s' t _ H L D _.
  assert (Hexisting : is_dir host t p = true ->
            r = Ok true ->
            exists t', _ensure_directory host self p t = (r, t') /\
              dirs t' = dirs t /\ files t' = files t /\
              environ t' = environ t).
  { intros Ht ->. rewrite ensure_directory_existing by exact Ht.
    eexists; split; [reflexivity | auto]. }
  destruct (is_dir host s p) eqn:Es.
  - rewrite ensure_directory_existing in H by exact Es. injection H as <- <-.
    apply Hexisting; [|reflexivity].
    apply (is_dir_mono host s); [exact (proj1 L) | exact Es].
  - unfold _ensure_directory, bind, path_isdir, try_except in H.
    rewrite Es in H.
    destruct (makedirs host p (log (IsDir p) s)) as [r1 s1] eqn:E1.
    assert (Hs : s' = s1).
    { destruct r1 as [[]|e]; [injection H; auto|].
      destruct (Exn_eqb e OSError); injection H; auto. }
    subst s1.
    destruct (makedirs_replay host p _ r1 s' (log (IsDir p) t) E1 L D)
      as [E2 Hk].
    destruct r1 as [[]|e].
    + injection H as <-. apply Hexisting; [|reflexivity].
      destruct (makedirs_spec host p _ _ _ E1) as (_ & _ & _ & _ & _ & Hok & _).
      exact (is_dir_mono host s' t p D (Hok eq_refl)).
    + assert (Et : is_dir host t p = false)
        by (apply Hk; [exact Es | discriminate]).
      unfold _ensure_directory, bind, path_isdir, try_except.
      rewrite Et, E2.
      destruct (Exn_eqb e OSError); injection H as <-;
        eexists; (split; [reflexivity|]); auto.
Qed.

Lemma replays_is_writable host self p :
  replays host (fun s => is_dir host s p = true) (_is_writable host self p).
Proof.
  intros s r s' t Hpre H [L1 _] _ S.
  pose proof (is_dir_present _ _ _ Hpre) as Hp.
  pose proof (is_dir_present _ _ _ (is_dir_mono _ _ _ _ L1 Hpre)) as Hpt.
  destruct (is_writable_extends host self (fun _ => True) p s r s' I H)
    as [_ Hset].
  destruct (is_writable_cases host self p s) as (r2 & s2 & E & _ & _ & Hr & _).
  rewrite H in E. injection E as <- <-.
  destruct (is_writable_cases host self p t)
    as (r3 & t' & E' & Hd & He & Hr' & Hf & _).
  rewrite Hp in Hr. rewrite Hpt in Hr', Hf.
  exists t'. split; [rewrite E', Hr', <- Hr; reflexivity|].
  split; [exact Hd|]. split; [|exact He]. rewrite Hf.
  destruct (Str.has_nul (marker host p)) eqn:Hn; [reflexivity|].
  cbn [negb andb]. rewrite andb_true_r.
  specialize (S _ (Hset eq_refl Hp)). unfold settled in S.
  destruct (may_open host (marker host p)) eqn:Ho; [|reflexivity].
  destruct (leftover host (marker host p)) as [[c|]|]; [| |reflexivity].
  - apply insert_id. exact S.
  - apply delete_id. exact S.
Qed.

Section PolicyReplay.
Variables (host : Host) (self : t) (policy : PlatformPolicy).
Hypothesis mounted_asks : forall p, asks_only (isMounted policy p).
Hypothesis network_asks : forall p, asks_only (isNetworkMounted policy p).

Lemma frames_probe p (k : bool -> M (option string)) :
  (forall b, frames host (k b)) ->
  frames host (created <- _ensure_directory host self p ;;
               if negb created then ret None
               else bind (_is_writable host self p) k).
Proof.
  intros Hk. apply frames_bind; [apply frames_ensure_directory|].
  intros [|]; cbn [negb]; [|apply frames_ret].
  apply frames_bind; [apply frames_is_writable | exact Hk].
Qed.

Lemma frames_candidate v : frames host (candidate host self policy v).
Proof.
  unfold candidate. apply frames_bind; [apply frames_asks, mounted_asks|].
  intros [|]; cbn [negb]; [|apply frames_ret].
  apply frames_bind; [apply frames_asks, network_asks|].
  intros [|]; [apply frames_ret|].
  apply frames_probe. intros [|]; apply frames_ret.
Qed.

Lemma frames_select_volumes volumes :
  frames host (select_volumes host self policy volumes).
Proof.
  induction volumes as [|v rest IH]; [apply frames_ret|].
  cbn [select_volumes]. apply frames_bind; [apply frames_candidate|].
  intros [p|]; [apply frames_ret | exact IH].
Qed.

Lemma frames_home_candidate : frames host (home_candidate host self).
Proof.
  unfold home_candidate. apply frames_probe. intros [|]; apply frames_ret.
Qed.

(** The directory test and the probe once more: the probe runs in a
    directory the test has found or made. *)
Lemma replays_probe pre p (k : bool -> M (option string)) :
  (forall b, frames host (k b)) ->
  (forall b pre', replays host pre' (k b)) ->
  replays host pre
    (created <- _ensure_directory host self p ;;
     if negb created then ret None
     else bind (_is_writable host self p) k).
Proof.
  intros Fk Rk.
  apply (replays_bind host pre
           (fun created s1 => created = true -> is_dir host s1 p = true)).
  - apply frames_ensure_directory.
  - intros [|]; cbn [negb]; [|apply frames_ret].
    apply frames_bind; [apply frames_is_writable | exact Fk].
  - apply replays_ensure_directory.
  - intros [|]; cbn [negb]; [|apply replays_ret].
    apply (replays_bind host _ (fun _ _ => True)).
    + apply frames_is_writable.
    + exact Fk.
    + apply (replays_weaken host (fun s => is_dir host s p = true));
        [|apply replays_is_writable].
      intros s Hs. apply Hs. reflexivity.
    + intros b. apply Rk.
    + auto.
  - intros s a s1 _ H ->. exact (ensure_directory_true _ _ _ _ _ H).
Qed.

Lemma replays_candidate pre v :
  (forall pre', replays host pre' (isMounted policy (mountRootFor policy v))) ->
  (forall pre',
     replays host pre' (isNetworkMounted policy (mountRootFor policy v))) ->
  replays host pre (candidate host self policy v).
Proof.
  intros Rm Rn. unfold candidate.
  apply (replays_bind host pre (fun _ _ => True));
    [apply frames_asks, mounted_asks | | apply Rm | | auto].
  { intros [|]; cbn [negb]; [|apply frames_ret].
    apply frames_bind; [apply frames_asks, network_asks|].
    intros [|]; [apply frames_ret|].
    apply frames_probe. intros [|]; apply frames_ret. }
  intros [|]; cbn [negb]; [|apply replays_ret].
  apply (replays_bind host _ (fun _ _ => True));
    [apply frames_asks, network_asks | | apply Rn | | auto].
  { intros [|]; [apply frames_ret|].
    apply frames_probe. intros [|]; apply frames_ret. }
  intros [|]; [apply replays_ret|].
  apply replays_probe.
  - intros [|]; apply frames_ret.
  - intros [|] pre'; apply replays_ret.
Qed.

Lemma replays_select_volumes pre volumes :
  (forall v, In v volumes ->
     (forall pre',
        replays host pre' (isMounted policy (mountRootFor policy v))) /\
     (forall pre',
        replays host pre'
          (isNetworkMounted policy (mountRootFor policy v)))) ->
  replays host pre (select_volumes host self policy volumes).
Proof.
  revert pre. induction volumes as [|v rest IH]; intros pre H;
    [apply replays_ret|].
  cbn [select_volumes].
  apply (replays_bind host pre (fun _ _ => True));
    [apply frames_candidate | | | | auto].
  - intros [p|]; [apply frames_ret | apply frames_select_volumes].
  - destruct (H v (or_introl eq_refl)). apply replays_candidate; assumption.
  - intros [p|]; [apply replays_ret|].
    apply IH. intros v' Hv'. apply H. right. exact Hv'.
Qed.

Lemma replays_home_candidate pre : replays host pre (home_candidate host self).
Proof.
  unfold home_candidate. apply replays_probe.
  - intros [|]; apply frames_ret.
  - intros [|] pre'; apply replays_ret.
Qed.

Lemma replays_select pre :
  (forall v, In v (preferred_volumes self) ->
     (forall pre',
        replays host pre' (isMounted policy (mountRootFor policy v))) /\
     (forall pre',
        replays host pre'
          (isNetworkMounted policy (mountRootFor policy v)))) ->
  replays host pre (select host self policy).
Proof.
  intros H. unfold select.
  apply (replays_bind host pre (fun _ _ => True));
    [apply frames_select_volumes | | | | auto].
  - intros [p|]; [apply frames_ret | apply frames_home_candidate].
  - apply replays_select_volumes, H.
  - intros [p|]; [apply replays_ret | apply replays_home_candidate].
Qed.
End PolicyReplay.

Lemma policy_of_replays host self policy v :
  policy_of host self = Some policy ->
  (system host = "Windows" -> may_mkdir host (v ++ ":\") = false) ->
  (forall pre, replays host pre (isMounted policy (mountRootFor policy v))) /\
  (forall pre,
     replays host pre (isNetworkMounted policy (mountRootFor policy v))).
Proof.
  unfold policy_of.
  destruct (String.eqb (system host) "Darwin");
    [|destruct (String.eqb (system host) "Linux");
      [|destruct (String.eqb (system host) "Windows") eqn:Ew]];
    intros H Hw; try discriminate; injection H as <-; cbn; split; intros pre;
    auto using replays_ismount, replays_is_network_drive, replays_ret.
  apply replays_isdir, Hw, String.eqb_eq, Ew.
Qed.

(** C8.  Run the constructor, then run it again in the state the first
    run left.  The second run ends as the first did: it returns the same
    instance, hence the same [cache_path], and leaves the directories, the
    files and the environment as the first run left them; the directory
    chosen exists after the first run, and on a directory that exists
    [_ensure_directory] answers true without calling [os.makedirs].  On
    Windows this takes that [os.makedirs] cannot create the root of a
    drive. *)
Theorem second_run_changes_nothing host volumes dir s r s1 :
  (system host = "Windows" ->
   forall v, In v volumes -> may_mkdir host (v ++ ":\") = false) ->
  __init__ host volumes dir s = (r, s1) ->
  exists s2,
    __init__ host volumes dir s1 = (r, s2) /\
    dirs s2 = dirs s1 /\ files s2 = files s1 /\ environ s2 = environ s1 /\
    (forall self p,
       r = Ok self -> cache_path self = Some p ->
       is_dir host s1 p = true /\
       _ensure_directory host self p s1 = (Ok true, log (IsDir p) s1)).
Proof.
  intros Hw H.
  destruct (init_outcome host volumes dir s r s1 H)
    as (found & sa & Hsel & X & Hcase).
  assert (Hs : dirs s1 = dirs sa /\ files s1 = files sa).
  { destruct found as [[p|]|e].
    - destruct Hcase as (_ & _ & _ & _ & Hd & Hf & _). auto.
    - destruct Hcase as [_ ->]. auto.
    - destruct Hcase as (_ & -> & _). auto. }
  destruct Hs as [Hd Hf].
  assert (Hdir : forall self p, r = Ok self -> cache_path self = Some p ->
                   is_dir host s1 p = true).
  { intros self p Hr Hp. destruct found as [[q|]|e].
    - destruct Hcase as (Hr' & _ & _ & Hdq & _). rewrite Hr' in Hr.
      injection Hr as <-. cbn in Hp. injection Hp as <-.
      apply is_dir_true in Hdq as (? & ? & Hin). apply is_dir_true.
      rewrite Hd. auto.
    - destruct Hcase as [Hr' _]. rewrite Hr' in Hr. injection Hr as <-.
      discriminate.
    - destruct Hcase as [Hr' _]. rewrite Hr' in Hr. discriminate. }
  assert (Hgoal : exists s2,
            __init__ host volumes dir s1 = (r, s2) /\
            dirs s2 = dirs s1 /\ files s2 = files s1 /\
            environ s2 = environ s1).
  { rewrite init_eq.
    destruct (policy_of host (fresh volumes dir)) as [policy|] eqn:Ep.
    2:{ destruct Hsel as [-> ->]. destruct Hcase as [-> ->]. exists s. auto. }
    destruct (policy_of_asks _ _ _ Ep) as (Hm & Hn & _).
    destruct (replays_select host (fresh volumes dir) policy Hm Hn
                (fun _ => True)
                (fun v Hv => policy_of_replays host _ policy v Ep
                               (fun W => Hw W v Hv))
                s found sa s1 I Hsel)
      as (t' & Et & Hdt & Hft & Het).
    - split; [rewrite Hd; exact (ext_dirs_keep _ _ _ _ X)|].
      intros q Hq Hnq. rewrite Hd in Hq |- *.
      exact (proj2 (extends_later _ _ _ _ X) q Hq Hnq).
    - rewrite Hd. reflexivity.
    - intros m. rewrite Hf. auto.
    - unfold bind. rewrite Et. destruct found as [[p|]|e].
      + destruct Hcase as (-> & _ & Hne & Hdp & _ & _ & Henv & _).
        rewrite export_cache_path_eq. cbn [cache_path set_cache_path].
        apply String.eqb_neq in Hne. rewrite Hne.
        apply is_dir_true in Hdp as (_ & Hnul & _). rewrite Hnul.
        eexists. split; [reflexivity|]. cbn [dirs files environ].
        split; [exact Hdt|]. split; [exact Hft|]. rewrite Het, Henv.
        rewrite (insert_id _ "NUKE_TEMP_DIR" p).
        * apply insert_id, lookup_insert_eq.
        * rewrite lookup_insert_ne by discriminate. apply lookup_insert_eq.
      + destruct Hcase as [-> _]. exists t'. auto.
      + destruct Hcase as [-> _]. exists t'. auto. }
  destruct Hgoal as (s2 & E2 & Hd2 & Hf2 & He2).
  exists s2. split; [exact E2|]. split; [exact Hd2|]. split; [exact Hf2|].
  split; [exact He2|].
  intros self p Hself Hp.
  split; [exact (Hdir self p Hself Hp)|].
  apply ensure_directory_existing. exact (Hdir self p Hself Hp).
Qed.

Lemma second_run_changes_nothing_witness :
  let first := __init__ mac ["FastSSD"; "NAS"; "RAID"] "_caches/nuke"
                 mac_disk in
  exists s2,
    __init__ mac ["FastSSD"; "NAS"; "RAID"] "_caches/nuke" (snd first)
    = (Ok {| preferred_volumes := ["FastSSD"; "NAS"; "RAID"];
             cache_dir := "_caches/nuke";
             cache_path := Some "/Volumes/RAID/_caches/nuke" |}, s2) /\
    dirs s2 = dirs (snd first).
Proof.
  intros first.
  destruct (second_run_changes_nothing mac ["FastSSD"; "NAS"; "RAID"]
              "_caches/nuke" mac_disk
              (Ok {| preferred_volumes := ["FastSSD"; "NAS"; "RAID"];
                     cache_dir := "_caches/nuke";
                     cache_path := Some "/Volumes/RAID/_caches/nuke" |})
              (snd first))
    as (s2 & E & Hd & _).
  - intros W. vm_compute in W. discriminate.
  - vm_compute. reflexivity.
  - exists s2. split; [exact E | exact Hd].
Defined.

(** * Further properties of the class *)

(** ** The Linux and Windows finders *)

Lemma candidate_linux_self host self self' v s :
  cache_dir self' = cache_dir self ->
  candidate host self' (linux_policy host self') v s
  = candidate host self (linux_policy host self) v s.
Proof. intros H. unfold candidate. rewrite H. reflexivity. Qed.

Lemma reject_all_linux_self host self self' pre s :
  cache_dir self' = cache_dir self ->
  reject_all host self' (linux_policy host self') pre s
  = reject_all host self (linux_policy host self) pre s.
Proof.
  intros H. revert s. induction pre as [|v pre IH]; intros s; [reflexivity|].
  cbn [reject_all]. rewrite (candidate_linux_self _ _ _ _ _ H).
  destruct (candidate host self (linux_policy host self) v s)
    as [[[q|]|e] s2]; auto.
Qed.

(** X1.  On Linux, when the volumes before index [i] are all skipped and
    volume [i] is mounted under [/mnt], is not flagged by the network check
    and has a cache directory that can be ensured and written to, the Linux
    finder returns [join(join("/mnt", volume), cache_dir)] and stops in the
    state the probe of volume [i] leaves, whatever follows [i] in the
    list. *)
Theorem linux_first_suitable_volume_wins host self pre v post s s1 s2 s3 s4 s5 :
  let root := PosixPath.join "/mnt" v in
  let p := PosixPath.join root (cache_dir self) in
  system host = "Linux" ->
  preferred_volumes self = pre ++ v :: post ->
  reject_all host self (linux_policy host self) pre s = Some s1 ->
  path_ismount host root s1 = (Ok true, s2) ->
  _is_network_drive host self root s2 = (Ok false, s3) ->
  _ensure_directory host self p s3 = (Ok true, s4) ->
  _is_writable host self p s4 = (Ok true, s5) ->
  _find_suitable_cache_path_linux host self s = (Ok (Some p), s5) /\
  (forall post',
     _find_suitable_cache_path_linux host
       {| preferred_volumes := pre ++ v :: post';
          cache_dir := cache_dir self; cache_path := cache_path self |} s
     = (Ok (Some p), s5)).
Proof.
  intros root p Hsys Hvols H0 H1 H2 H3 H4.
  assert (Hposix : system host <> "Windows") by (rewrite Hsys; discriminate).
  assert (Hroot : path_join host "/mnt" v = root)
    by apply path_join_posix, Hposix.
  assert (Hp : path_join host root (cache_dir self) = p)
    by apply path_join_posix, Hposix.
  assert (Hgen : forall self' post',
            cache_dir self' = cache_dir self ->
            preferred_volumes self' = pre ++ v :: post' ->
            _find_suitable_cache_path_linux host self' s = (Ok (Some p), s5)).
  { intros self' post' Hcd Hpv. rewrite find_linux_select. unfold select, bind.
    rewrite Hpv.
    erewrite (select_first_match host self' (linux_policy host self')
                pre v post' s s1 s2 s3 s4 s5).
    - cbn [mountRootFor linux_policy]. rewrite Hroot, Hcd, Hp. reflexivity.
    - rewrite (reject_all_linux_self host self self') by exact Hcd. exact H0.
    - cbn [mountRootFor isMounted linux_policy]. rewrite Hroot. exact H1.
    - cbn [mountRootFor isNetworkMounted linux_policy]. rewrite Hroot.
      exact H2.
    - cbn [mountRootFor linux_policy]. rewrite Hroot, Hcd, Hp. exact H3.
    - cbn [mountRootFor linux_policy]. rewrite Hroot, Hcd, Hp. exact H4. }
  split; [apply (Hgen self post); auto|].
  intros post'. apply (Hgen _ post'); reflexivity.
Qed.

Lemma linux_first_suitable_volume_wins_witness :
  fst (_find_suitable_cache_path_linux linux_box
         (fresh ["fast"; "projects"; "scratch"; "spare"] "NukeCache")
         linux_disk)
  = Ok (Some "/mnt/scratch/NukeCache").
Proof.
  edestruct (linux_first_suitable_volume_wins linux_box
               (fresh ["fast"; "projects"; "scratch"; "spare"] "NukeCache")
               ["fast"; "projects"] "scratch" ["spare"] linux_disk)
    as (H1 & _).
  - reflexivity.
  - reflexivity.
  - vm_compute. reflexivity.
  - vm_compute. reflexivity.
  - vm_compute. reflexivity.
  - vm_compute. reflexivity.
  - vm_compute. reflexivity.
  - rewrite H1. reflexivity.
Defined.

(** X2.  On Windows, when the drives before index [i] are all skipped and
    the root [volume:\] of drive [i] is a directory whose cache directory
    can be ensured and written to, the Windows finder returns
    [join(volume:\, cache_dir)] and stops there, whatever follows [i]. *)
Theorem windows_first_accessible_drive_wins host self pre v post s s1 s2 s3 s4 :
  let root := (v ++ ":\")%string in
  let p := path_join host root (cache_dir self) in
  preferred_volumes self = pre ++ v :: post ->
  reject_all host self (windows_policy_as_coded host) pre s = Some s1 ->
  path_isdir host root s1 = (Ok true, s2) ->
  _ensure_directory host self p s2 = (Ok true, s3) ->
  _is_writable host self p s3 = (Ok true, s4) ->
  _find_suitable_cache_path_windows host self s = (Ok (Some p), s4).
Proof.
  intros root p Hvols H0 H1 H2 H3.
  rewrite find_windows_select. unfold select, bind. rewrite Hvols.
  erewrite (select_first_match host self (windows_policy_as_coded host)
              pre v post s s1 s2 s2 s3 s4); try eassumption; reflexivity.
Qed.

Lemma windows_first_accessible_drive_wins_witness :
  fst (_find_suitable_cache_path_windows windows
         (fresh ["Q"; "Z"; "Y"] "NukeCache") windows_state)
  = Ok (Some "Z:\NukeCache").
Proof.
  erewrite (windows_first_accessible_drive_wins windows
              (fresh ["Q"; "Z"; "Y"] "NukeCache") ["Q"] "Z" ["Y"]
              windows_state).
  - reflexivity.
  - reflexivity.
  - vm_compute. reflexivity.
  - vm_compute. reflexivity.
  - vm_compute. reflexivity.
  - vm_compute. reflexivity.
Defined.

(** ** Calls a method makes *)

Lemma emits_ret {A} P (a : A) : emits P (ret a).
Proof.
  intros s r s' H. injection H as <- <-. exists []. rewrite app_nil_r.
  split; [reflexivity | constructor].
Qed.

Lemma emits_bind {A B} P (c : M A) (k : A -> M B) :
  emits P c -> (forall a, emits P (k a)) -> emits P (bind c k).
Proof.
  intros Hc Hk s r s' H. unfold bind in H.
  destruct (c s) as [[a|e] s1] eqn:E.
  - destruct (Hc _ _ _ E) as (n1 & C1 & F1).
    destruct (Hk _ _ _ _ H) as (n2 & C2 & F2).
    exists (n1 ++ n2). split; [rewrite C2, C1, app_assoc; reflexivity|].
    apply Forall_app. auto.
  - injection H as <- <-. exact (Hc _ _ _ E).
Qed.

Lemma emits_isdir host (P : Call -> Prop) p :
  P (IsDir p) -> emits P (path_isdir host p).
Proof.
  intros HP s r s' H. injection H as <- <-. exists [IsDir p].
  split; [reflexivity | repeat constructor; exact HP].
Qed.

Lemma emits_ensure_directory host self p :
  emits plain_file_call (_ensure_directory host self p).
Proof.
  intros s r s' H.
  destruct (ensure_directory_spec host self p s r s' H)
    as (_ & _ & _ & _ & _ & [[_ ->] | [_ Hc]]).
  - exists [IsDir p]. split; [reflexivity | repeat constructor].
  - exists [IsDir p; MakeDirs p]. split; [exact Hc | repeat constructor].
Qed.

Lemma emits_is_writable host self p :
  emits plain_file_call (_is_writable host self p).
Proof.
  intros s r s' H.
  destruct (is_writable_cases host self p s)
    as (r2 & s2 & H2 & _ & _ & _ & _ & Hc).
  rewrite H in H2. injection H2 as _ <-. eexists. split; [exact Hc|].
  destruct (_ && _ && _); [destruct (may_write host _)|];
    repeat constructor.
Qed.

Lemma emits_windows_volumes host self volumes :
  emits plain_file_call (windows_volumes host self volumes).
Proof.
  induction volumes as [|v rest IH]; [apply emits_ret|].
  cbn [windows_volumes]. apply emits_bind; [apply emits_isdir; exact I|].
  intros [|]; cbn [negb]; [|exact IH].
  apply emits_bind.
  - unfold and_then. apply emits_bind; [apply emits_ensure_directory|].
    intros [|]; [apply emits_is_writable | apply emits_ret].
  - intros [|]; [apply emits_ret | exact IH].
Qed.

(** X3.  Whatever the host, the volumes and the state, the Windows finder
    only asks [os.path.isdir], calls [os.makedirs] and runs the writability
    probe: it starts no subprocess (so [net use] is never consulted), asks
    for no mount point and assigns no environment variable. *)
Theorem windows_finder_never_queries_the_network host self s :
  exists r s' new,
    _find_suitable_cache_path_windows host self s = (r, s') /\
    calls s' = calls s ++ new /\
    Forall plain_file_call new /\
    (forall argv, ~ In (CheckOutput argv) new).
Proof.
  destruct (_find_suitable_cache_path_windows host self s) as [r s'] eqn:E.
  assert (Hem : emits plain_file_call
                  (_find_suitable_cache_path_windows host self)).
  { unfold _find_suitable_cache_path_windows.
    apply emits_bind; [apply emits_windows_volumes|].
    intros [p|]; [apply emits_ret|].
    unfold home_fallback. apply emits_bind.
    - unfold and_then. apply emits_bind; [apply emits_ensure_directory|].
      intros [|]; [apply emits_is_writable | apply emits_ret].
    - intros [|]; apply emits_ret. }
  destruct (Hem s r s' E) as (new & C & F).
  exists r, s', new. split; [reflexivity|]. split; [exact C|].
  split; [exact F|]. intros argv Hin.
  rewrite List.Forall_forall in F. exact (F _ Hin).
Qed.

(** ** The directory helper *)

(** X4.  [_ensure_directory] answers true exactly when its path is a
    directory once it returns, and lets one exception through: the
    [ValueError] of a path that holds a NUL.  It leaves the files and the
    environment alone and removes no directory.  The directories it adds
    are the path and the directories above it, each one that [os.mkdir] may
    create and with its parent in place; they are added only when the path
    was no directory, and those above the path stay behind when the call
    fails further down.  On a directory that exists it makes the one
    [os.path.isdir] query; otherwise it calls [os.makedirs] once. *)
Theorem ensure_directory_reports_the_directory host self path s :
  exists r s',
    _ensure_directory host self path s = (r, s') /\
    files s' = files s /\ environ s' = environ s /\
    dirs s ⊆ dirs s' /\
    (forall q, q ∈ dirs s' -> q ∉ dirs s ->
       is_dir host s path = false /\ In q (lineage host path) /\
       mkdir_allowed host q = true /\
       forall parent, parent_key host q = Some parent -> parent ∈ dirs s') /\
    (r = Ok true /\ is_dir host s' path = true \/
     r = Ok false /\ is_dir host s' path = false \/
     r = Raise ValueError /\ nul_free host path = false /\
     is_dir host s' path = false) /\
    (is_dir host s path = true -> s' = log (IsDir path) s) /\
    (is_dir host s path = false ->
     calls s' = calls s ++ [IsDir path; MakeDirs path]).
Proof.
  destruct (_ensure_directory host self path s) as [r s'] eqn:E.
  destruct (ensure_directory_spec host self path s r s' E)
    as (Hf & He & [L1 L2] & Hnew & Hr & Hc).
  exists r, s'. split; [reflexivity|]. split; [exact Hf|]. split; [exact He|].
  split; [exact L1|]. split.
  { intros q Hq Hnq. destruct (L2 q Hq Hnq) as (_ & _ & Ha & Hpar).
    split; [|auto].
    destruct Hc as [[_ ->] | [Hd _]]; [contradiction | exact Hd]. }
  split; [exact Hr|].
  destruct Hc as [[Hd Hs] | [Hd Hc]]; split; intros Hd'; congruence.
Qed.

(** A failure further down leaves behind what [os.makedirs] made on the
    way. *)
Example ensure_directory_leaves_parents_behind :
  let r := _ensure_directory mac (fresh [] "")
             ("/Volumes/RAID/a/b" ++ NUL ++ "/c") mac_disk in
  fst r = Raise ValueError /\
  is_dir mac mac_disk "/Volumes/RAID/a" = false /\
  is_dir mac (snd r) "/Volumes/RAID/a" = true.
Proof. vm_compute. auto. Qed.

(** ** The network check on Windows *)

Lemma lower_char_idempotent c :
  Str.lower_char (Str.lower_char c) = Str.lower_char c.
Proof.
  destruct c as [[|] [|] [|] [|] [|] [|] [|] [|]]; vm_compute; reflexivity.
Qed.

Lemma lower_idempotent s : Str.lower (Str.lower s) = Str.lower s.
Proof.
  induction s as [|c s IH]; [reflexivity|].
  cbn [Str.lower]. rewrite lower_char_idempotent, IH. reflexivity.
Qed.

(** X5.  On Windows, when [net use] prints [out], the network check
    answers true exactly when the lower-cased path occurs in the
    lower-cased output; so two paths that differ only in letter case get the
    same answer, and a path gets the answer of its lower-cased form. *)
Theorem windows_network_check_ignores_case host self out volume_path s :
  system host = "Windows" ->
  command host ["net"; "use"] = Output out ->
  exists b,
    _is_network_drive host self volume_path s
    = (Ok b, log (CheckOutput ["net"; "use"]) s) /\
    (b = true <-> occurs_in (Str.lower volume_path) (Str.lower out)) /\
    (forall other,
       Str.lower other = Str.lower volume_path ->
       _is_network_drive host self other s
       = _is_network_drive host self volume_path s) /\
    _is_network_drive host self (Str.lower volume_path) s
    = _is_network_drive host self volume_path s.
Proof.
  intros Hsys Hout.
  assert (Heq : forall p,
            _is_network_drive host self p s
            = (Ok (Str.contains (Str.lower p) (Str.lower out)),
               log (CheckOutput ["net"; "use"]) s)).
  { intros p. unfold _is_network_drive, try_except, bind, check_output.
    rewrite Hsys, Hout. reflexivity. }
  exists (Str.contains (Str.lower volume_path) (Str.lower out)).
  split; [apply Heq|]. split; [apply contains_spec|]. split.
  - intros other Ho. rewrite !Heq, Ho. reflexivity.
  - rewrite !Heq, lower_idempotent. reflexivity.
Qed.

Lemma windows_network_check_ignores_case_witness :
  _is_network_drive windows (fresh ["z"] "NukeCache") "z:\" windows_state
  = _is_network_drive windows (fresh ["z"] "NukeCache") "Z:\" windows_state.
Proof.
  destruct (windows_network_check_ignores_case windows
              (fresh ["z"] "NukeCache") net_use_table "Z:\" windows_state)
    as (b & _ & _ & H & _).
  - reflexivity.
  - reflexivity.
  - apply H. vm_compute. reflexivity.
Defined.

(** ** Tokens inside a volume name *)

Lemma append_assoc (a b c : string) :
  ((a ++ b) ++ c)%string = (a ++ (b ++ c))%string.
Proof.
  induction a as [|x a IH]; [reflexivity|].
  rewrite !append_cons, IH. reflexivity.
Qed.

Lemma occurs_in_trans x y z : occurs_in x y -> occurs_in y z -> occurs_in x z.
Proof.
  intros [a [c ->]] [a' [c' ->]]. exists (a' ++ a)%string, (c ++ c')%string.
  rewrite !append_assoc. reflexivity.
Qed.

Lemma mount_lines_token_in_path volume_path lines fs :
  In fs network_filesystems ->
  occurs_in fs volume_path ->
  (exists line, In line lines /\ occurs_in volume_path line) ->
  mount_lines volume_path lines = true.
Proof.
  intros Hfs Hin. induction lines as [|l0 lines IH]; intros [line [Hl Hocc]].
  - destruct Hl.
  - cbn [mount_lines]. destruct (Str.contains volume_path l0) eqn:E.
    + apply existsb_exists. exists fs. split; [exact Hfs|].
      apply contains_spec. apply (occurs_in_trans _ volume_path); [exact Hin|].
      apply contains_spec. exact E.
    + destruct Hl as [<- | Hl].
      * apply contains_spec in Hocc. congruence.
      * apply IH. eauto.
Qed.

(** X6.  On macOS and Linux the tokens are looked for in the whole line,
    the mount point included: a volume whose mount root itself contains one
    of smbfs, nfs, afp, cifs, webdav is flagged as a network volume as soon
    as any line of the mount table mentions it, whatever file system that
    line reports. *)
Theorem token_in_mount_root_flags_the_volume host self out volume_path fs s :
  system host = "Darwin" \/ system host = "Linux" ->
  command host ["mount"] = Output out ->
  In fs ["smbfs"; "nfs"; "afp"; "cifs"; "webdav"] ->
  occurs_in fs volume_path ->
  (exists line, In line (Str.splitlines out) /\ occurs_in volume_path line) ->
  _is_network_drive host self volume_path s
  = (Ok true, log (CheckOutput ["mount"]) s).
Proof.
  intros Hsys Hout Hfs Hin Hline.
  unfold _is_network_drive, try_except, bind, check_output.
  replace (String.eqb (system host) "Darwin"
           || String.eqb (system host) "Linux") with true.
  - rewrite Hout. unfold ret.
    rewrite (mount_lines_token_in_path _ _ fs Hfs Hin Hline). reflexivity.
  - symmetry. apply orb_true_iff.
    destruct Hsys as [-> | ->]; [left | right]; reflexivity.
Qed.

Lemma token_in_mount_root_flags_the_volume_witness :
  _is_network_drive mac_confs (fresh ["confs"] "NukeCache") "/Volumes/confs"
    confs_disk
  = (Ok true, log (CheckOutput ["mount"]) confs_disk) /\
  fst (__init__ mac_confs ["confs"] "NukeCache" confs_disk)
  = Ok {| preferred_volumes := ["confs"]; cache_dir := "NukeCache";
          cache_path := Some "/Users/artist/NukeCache" |}.
Proof.
  split; [|vm_compute; reflexivity].
  apply (token_in_mount_root_flags_the_volume mac_confs
           (fresh ["confs"] "NukeCache") confs_mount_table "/Volumes/confs"
           "nfs").
  - left. reflexivity.
  - reflexivity.
  - vm_compute. auto.
  - apply contains_spec. vm_compute. reflexivity.
  - exists "/dev/disk5s1 on /Volumes/confs (apfs, local, journaled)".
    split; [vm_compute; auto | apply contains_spec; vm_compute; reflexivity].
Defined.

(** ** What the constructor hands over *)

Lemma candidate_some_marker host self policy v s p s' :
  candidate host self policy v s = (Ok (Some p), s') ->
  files s' !! marker host p = None.
Proof.
  unfold candidate, bind, ret.
  destruct (isMounted policy _ s) as [[[|]|e] s1]; cbn [negb];
    try discriminate.
  destruct (isNetworkMounted policy _ s1) as [[[|]|e] s2]; try discriminate.
  destruct (_ensure_directory host self _ s2) as [[[|]|e] s3]; cbn [negb];
    try discriminate.
  destruct (_is_writable host self _ s3) as [[[|]|e] s4] eqn:E4;
    try discriminate.
  intros H. injection H as <- <-.
  apply is_writable_true_calls in E4 as (_ & Hf & _). rewrite Hf.
  apply lookup_delete_eq.
Qed.

Lemma select_some_marker host self policy s p s' :
  select host self policy s = (Ok (Some p), s') ->
  files s' !! marker host p = None.
Proof.
  unfold select, bind.
  assert (Hvol : forall volumes st p' st',
            select_volumes host self policy volumes st = (Ok (Some p'), st') ->
            files st' !! marker host p' = None).
  { induction volumes as [|v rest IH]; intros st p' st' H; [discriminate|].
    cbn [select_volumes] in H. unfold bind in H.
    destruct (candidate host self policy v st) as [[[q|]|e] st1] eqn:E;
      try discriminate.
    - injection H as <- <-. exact (candidate_some_marker _ _ _ _ _ _ _ E).
    - exact (IH _ _ _ H). }
  destruct (select_volumes host self policy (preferred_volumes self) s)
    as [[[q|]|e] s1] eqn:E; try discriminate.
  - intros H. injection H as <- <-. exact (Hvol _ _ _ _ E).
  - intros H.
    exact (candidate_some_marker host self
             {| mountRootFor := fun _ => home host;
                isMounted := fun _ => ret true;
                isNetworkMounted := fun _ => ret false |} "" s1 p s' H).
Qed.

(** X7.  When the constructor returns with a cache path, that path is the
    cache directory of one of the preferred volumes or of the home
    directory, it is a directory in the state the constructor leaves, and
    the marker file of the probe is not in it. *)
Theorem chosen_directory_is_ready host volumes dir s self s' p :
  __init__ host volumes dir s = (Ok self, s') ->
  cache_path self = Some p ->
  In p (targets host (fresh volumes dir)) /\
  is_dir host s' p = true /\
  files s' !! path_join host p ".write_test" = None.
Proof.
  intros H Hp.
  destruct (init_outcome host volumes dir s _ _ H)
    as (found & s1 & Hsel & _ & Hcase).
  destruct found as [[q|]|e].
  2:{ destruct Hcase as [Hr _]. injection Hr as ->. discriminate. }
  2:{ destruct Hcase as [Hr _]. discriminate. }
  destruct Hcase as (Hr & Hin & Hne & Hdir & Hd & Hf & _).
  injection Hr as ->. cbn in Hp. injection Hp as ->.
  split; [exact Hin|]. split.
  - apply is_dir_true in Hdir as (? & ? & Hdir). apply is_dir_true.
    rewrite Hd. auto.
  - rewrite Hf. destruct (policy_of host (fresh volumes dir)) as [policy|].
    + exact (select_some_marker _ _ _ _ _ _ Hsel).
    + destruct Hsel as [Hsel _]. discriminate.
Qed.

Lemma chosen_directory_is_ready_witness :
  is_dir mac (snd (__init__ mac ["FastSSD"; "RAID"] "AppCache" mac_disk))
         "/Volumes/RAID/AppCache" = true.
Proof.
  refine (proj1 (proj2 (chosen_directory_is_ready mac ["FastSSD"; "RAID"]
                          "AppCache" mac_disk
                          {| preferred_volumes := ["FastSSD"; "RAID"];
                             cache_dir := "AppCache";
                             cache_path := Some "/Volumes/RAID/AppCache" |}
                          _ "/Volumes/RAID/AppCache" _ _))).
  - vm_compute. reflexivity.
  - reflexivity.
Defined.

(** ** An absolute cache directory *)

Lemma join_absolute_second a b :
  Str.startswith "/" b = true -> PosixPath.join a b = b.
Proof. intros H. unfold PosixPath.join. rewrite H. reflexivity. Qed.

(** X8.  Off Windows, [os.path.join] drops its first argument when the
    second is absolute: with a [cache_dir] that starts with [/], every
    preferred volume and the home directory give the same cache path,
    [cache_dir] itself, so the constructor ends with that path or with
    none. *)
Theorem absolute_cache_dir_is_the_only_candidate host volumes dir s self s' :
  system host <> "Windows" ->
  Str.startswith "/" dir = true ->
  __init__ host volumes dir s = (Ok self, s') ->
  (forall p, In p (targets host (fresh volumes dir)) -> p = dir) /\
  (cache_path self = None \/ cache_path self = Some dir).
Proof.
  intros Hsys Habs H.
  assert (Hjoin : forall a, path_join host a dir = dir).
  { intros a. rewrite path_join_posix by exact Hsys.
    apply join_absolute_second, Habs. }
  assert (Ht : forall p, In p (targets host (fresh volumes dir)) -> p = dir).
  { intros p. unfold targets.
    destruct (policy_of host (fresh volumes dir)) as [policy|]; [|intros []].
    unfold cache_paths. cbn [cache_dir fresh preferred_volumes].
    intros Hin. apply in_app_or in Hin as [Hin | [<- | []]].
    - apply in_map_iff in Hin as (v & <- & _). apply Hjoin.
    - apply Hjoin. }
  split; [exact Ht|].
  destruct (init_outcome host volumes dir s _ _ H)
    as (found & s1 & _ & _ & Hcase).
  destruct found as [[p|]|e].
  - destruct Hcase as (Hr & Hin & _). injection Hr as ->. right.
    cbn [cache_path set_cache_path]. rewrite (Ht p Hin). reflexivity.
  - destruct Hcase as [Hr _]. injection Hr as ->. left. reflexivity.
  - destruct Hcase as [Hr _]. discriminate.
Qed.

Lemma absolute_cache_dir_is_the_only_candidate_witness :
  fst (__init__ mac ["FastSSD"; "RAID"] "/tmp/nuke" mac_disk)
  = Ok {| preferred_volumes := ["FastSSD"; "RAID"]; cache_dir := "/tmp/nuke";
          cache_path := Some "/tmp/nuke" |} /\
  (forall p, In p (targets mac (fresh ["FastSSD"; "RAID"] "/tmp/nuke")) ->
             p = "/tmp/nuke").
Proof.
  split; [vm_compute; reflexivity|].
  refine (proj1 (absolute_cache_dir_is_the_only_candidate mac
                   ["FastSSD"; "RAID"] "/tmp/nuke" mac_disk
                   {| preferred_volumes := ["FastSSD"; "RAID"];
                      cache_dir := "/tmp/nuke";
                      cache_path := Some "/tmp/nuke" |}
                   (snd (__init__ mac ["FastSSD"; "RAID"] "/tmp/nuke"
                           mac_disk)) _ _ _)).
  - vm_compute. discriminate.
  - reflexivity.
  - vm_compute. reflexivity.
Defined.

(** ** Volumes that are passed over *)

Lemma candidate_passed_over host self policy v s :
  isMounted policy = path_ismount host ->
  isNetworkMounted policy = _is_network_drive host self ->
  mount_points host (mountRootFor policy v) = false \/
  network_verdict host (mountRootFor policy v) = true ->
  exists s' qs,
    candidate host self policy v s = (Ok None, s') /\
    dirs s' = dirs s /\ files s' = files s /\ environ s' = environ s /\
    calls s' = calls s ++ qs /\ Forall query qs.
Proof.
  intros Hm Hn Hv. unfold candidate, bind. rewrite Hm, Hn.
  unfold path_ismount at 1.
  destruct (mount_points host (mountRootFor policy v)) eqn:Em; cbn [negb].
  - destruct Hv as [Hv | Hv]; [discriminate|].
    destruct (is_network_drive_eq host self (mountRootFor policy v)
                (log (IsMount (mountRootFor policy v)) s))
      as (r & s' & E & Hr & Hd & Hf & He & Hc).
    rewrite (network_verdict_true _ _ Hv), Hv in Hr. subst r.
    rewrite E. exists s', (IsMount (mountRootFor policy v)
                             :: network_calls host).
    split; [reflexivity|]. repeat split; auto.
    + rewrite Hc. cbn [log calls]. rewrite <- app_assoc. reflexivity.
    + constructor; [exact I | apply network_calls_query].
  - exists (log (IsMount (mountRootFor policy v)) s),
           [IsMount (mountRootFor policy v)].
    split; [reflexivity|]. repeat split; auto. repeat constructor.
Qed.

Lemma select_volumes_passed_over host self policy volumes s :
  isMounted policy = path_ismount host ->
  isNetworkMounted policy = _is_network_drive host self ->
  (forall v, In v volumes ->
     mount_points host (mountRootFor policy v) = false \/
     network_verdict host (mountRootFor policy v) = true) ->
  exists s' qs,
    select_volumes host self policy volumes s = (Ok None, s') /\
    dirs s' = dirs s /\ files s' = files s /\ environ s' = environ s /\
    calls s' = calls s ++ qs /\ Forall query qs.
Proof.
  intros Hm Hn. revert s. induction volumes as [|v rest IH]; intros s Hv.
  - exists s, []. rewrite app_nil_r. repeat split; auto.
  - destruct (candidate_passed_over host self policy v s Hm Hn
                (Hv v (or_introl eq_refl)))
      as (s1 & q1 & E1 & Hd1 & Hf1 & He1 & Hc1 & Hq1).
    destruct (IH s1 (fun v' H' => Hv v' (or_intror H')))
      as (s2 & q2 & E2 & Hd2 & Hf2 & He2 & Hc2 & Hq2).
    exists s2, (q1 ++ q2). cbn [select_volumes]. unfold bind. rewrite E1.
    split; [exact E2|]. repeat split; try congruence.
    + rewrite Hc2, Hc1, app_assoc. reflexivity.
    + apply Forall_app. auto.
Qed.

(** X9.  In the macOS and Linux finders, a volume that is not mounted, or
    that the network check flags, costs queries only.  When every preferred
    volume is of that kind, the loop creates no directory and no file, and
    the finder returns what the home directory fallback returns in the
    state the loop leaves. *)
Theorem unusable_volumes_leave_the_choice_to_home host self s :
  ((forall v, In v (preferred_volumes self) ->
      mount_points host (path_join host "/Volumes" v) = false \/
      network_verdict host (path_join host "/Volumes" v) = true) ->
   exists s1 qs,
     dirs s1 = dirs s /\ files s1 = files s /\ environ s1 = environ s /\
     calls s1 = calls s ++ qs /\ Forall query qs /\
     _find_suitable_cache_path_macos host self s = home_fallback host self s1)
  /\
  ((forall v, In v (preferred_volumes self) ->
      mount_points host (path_join host "/mnt" v) = false \/
      network_verdict host (path_join host "/mnt" v) = true) ->
   exists s1 qs,
     dirs s1 = dirs s /\ files s1 = files s /\ environ s1 = environ s /\
     calls s1 = calls s ++ qs /\ Forall query qs /\
     _find_suitable_cache_path_linux host self s = home_fallback host self s1).
Proof.
  split; intros Hv.
  - destruct (select_volumes_passed_over host self (macos_policy host self)
                (preferred_volumes self) s eq_refl eq_refl Hv)
      as (s1 & qs & E & Hd & Hf & He & Hc & Hq).
    exists s1, qs. repeat split; auto.
    unfold _find_suitable_cache_path_macos, bind.
    rewrite macos_volumes_select, E. reflexivity.
  - destruct (select_volumes_passed_over host self (linux_policy host self)
                (preferred_volumes self) s eq_refl eq_refl Hv)
      as (s1 & qs & E & Hd & Hf & He & Hc & Hq).
    exists s1, qs. repeat split; auto.
    unfold _find_suitable_cache_path_linux, bind.
    rewrite linux_volumes_select, E. reflexivity.
Qed.

Lemma unusable_volumes_leave_the_choice_to_home_witness :
  exists s1,
    dirs s1 = dirs mac_disk /\
    _find_suitable_cache_path_macos mac (fresh ["FastSSD"; "NAS"] "AppCache")
      mac_disk
    = home_fallback mac (fresh ["FastSSD"; "NAS"] "AppCache") s1.
Proof.
  destruct (proj1 (unusable_volumes_leave_the_choice_to_home mac
                     (fresh ["FastSSD"; "NAS"] "AppCache") mac_disk))
    as (s1 & qs & Hd & _ & _ & _ & _ & E).
  - intros v [<- | [<- | []]]; [left | right]; vm_compute; reflexivity.
  - exists s1. split; [exact Hd | exact E].
Defined.

(** ** A marker that was there before *)

(** X10.  The probe does not look at what [.write_test] held before.  Once
    the marker is opened (its path holds no NUL, the file system lets it be
    opened, and its directory is there) its old content is lost: the file is
    gone when the probe succeeds, holds ["test"] when only the removal fails
    and is empty when the write fails.  Only when it is not opened does it
    keep what it had.  No other file changes. *)
Theorem probe_overwrites_an_existing_marker host self path s :
  let m := path_join host path ".write_test" in
  exists r s',
    _is_writable host self path s = (r, s') /\
    files s' !! m =
      (if negb (Str.has_nul m) && may_open host m && dir_present host s m then
         if may_write host m then
           if may_remove host m then None else Some "test"
         else Some ""
       else files s !! m) /\
    (forall q, q <> m -> files s' !! q = files s !! q).
Proof.
  intros m.
  destruct (is_writable_cases host self path s)
    as (r & s' & E & _ & _ & _ & Hf & _).
  unfold marker in E, Hf. fold m in E, Hf. unfold leftover in Hf.
  exists r, s'. split; [exact E|]. rewrite Hf.
  destruct (negb (Str.has_nul m) && may_open host m && dir_present host s m)
    eqn:Ho; [|auto].
  apply andb_true_iff in Ho as [Ho _]. apply andb_true_iff in Ho as [_ Ho].
  rewrite Ho.
  destruct (may_write host m); [destruct (may_remove host m)|]; split;
    try (apply lookup_insert_eq); try (apply lookup_delete_eq);
    intros q Hq;
    try (rewrite lookup_insert_ne by congruence; reflexivity);
    rewrite lookup_delete_ne by congruence; reflexivity.
Qed.

(** A marker left by a full disk is removed by the next probe that
    succeeds. *)
Example probe_clears_a_stale_marker :
  let stale := snd (_is_writable mac_full_disk (fresh [] "")
                      "/Volumes/RAID/AppCache" mac_with_cache) in
  files stale !! "/Volumes/RAID/AppCache/.write_test" = Some "" /\
  files (snd (_is_writable mac (fresh [] "") "/Volumes/RAID/AppCache" stale))
    !! "/Volumes/RAID/AppCache/.write_test" = None.
Proof. vm_compute. auto. Qed.

(** ** A mount point inside another *)

(** X11.  On macOS and Linux the line that decides for a mount root is
    the first one in which it occurs, which need not be its own: when the
    first such line is that of a longer mount point (RAID2 for RAID) and
    names a network file system, the volume is flagged as a network volume
    whatever its own line says further down. *)
Theorem earlier_line_of_a_longer_mount_point_decides
        host self out volume_path longer pre line post fs s :
  system host = "Darwin" \/ system host = "Linux" ->
  command host ["mount"] = Output out ->
  Str.splitlines out = pre ++ line :: post ->
  (forall l, In l pre -> ~ occurs_in volume_path l) ->
  occurs_in volume_path longer ->
  occurs_in longer line ->
  In fs ["smbfs"; "nfs"; "afp"; "cifs"; "webdav"] ->
  occurs_in fs line ->
  _is_network_drive host self volume_path s
  = (Ok true, log (CheckOutput ["mount"]) s).
Proof.
  intros Hsys Hout Hsplit Hpre Hlonger Hline Hfs Htok.
  unfold _is_network_drive, try_except, bind, check_output.
  replace (String.eqb (system host) "Darwin"
           || String.eqb (system host) "Linux") with true.
  - rewrite Hout. unfold ret.
    replace (mount_lines volume_path (Str.splitlines out)) with true;
      [reflexivity|].
    symmetry.
    apply (proj1 (mount_lines_spec volume_path (Str.splitlines out))
             pre line post Hsplit Hpre
             (occurs_in_trans _ _ _ Hlonger Hline)).
    exists fs. auto.
  - symmetry. apply orb_true_iff.
    destruct Hsys as [-> | ->]; [left | right]; reflexivity.
Qed.

Lemma earlier_line_of_a_longer_mount_point_decides_witness :
  _is_network_drive mac_shadowed (fresh ["RAID"] "AppCache") "/Volumes/RAID"
    shadowed_disk
  = (Ok true, log (CheckOutput ["mount"]) shadowed_disk) /\
  fst (__init__ mac_shadowed ["RAID"] "AppCache" shadowed_disk)
  = Ok {| preferred_volumes := ["RAID"]; cache_dir := "AppCache";
          cache_path := Some "/Users/artist/AppCache" |}.
Proof.
  split; [|vm_compute; reflexivity].
  apply (earlier_line_of_a_longer_mount_point_decides mac_shadowed
           (fresh ["RAID"] "AppCache") shadow_mount_table "/Volumes/RAID"
           "/Volumes/RAID2"
           ["/dev/disk1s1 on / (apfs, local, journaled)"]
           "//artist@nas/share on /Volumes/RAID2 (smbfs, nodev, nosuid)"
           ["/dev/disk3s1 on /Volumes/RAID (apfs, local, journaled)"]
           "smbfs").
  - left. reflexivity.
  - reflexivity.
  - vm_compute. reflexivity.
  - intros l [<- | []] Hc. apply contains_spec in Hc. vm_compute in Hc.
    discriminate.
  - apply contains_spec. vm_compute. reflexivity.
  - apply contains_spec. vm_compute. reflexivity.
  - vm_compute. auto.
  - apply contains_spec. vm_compute. reflexivity.
Defined.

(** ** Directory names off Windows *)

Lemma ends_with_sep_split a :
  Str.ends_with_sep a = true -> exists a', a = (a' ++ "/")%string.
Proof.
  induction a as [|c a IH]; [discriminate|]. destruct a as [|d a].
  - cbn. unfold Str.is_sep. intros H. apply Ascii.eqb_eq in H. subst c.
    exists "". reflexivity.
  - rewrite ends_with_sep_cons by discriminate. intros H.
    destruct (IH H) as [a' Ha]. exists (String c a'). rewrite Ha. reflexivity.
Qed.

Lemma rstrip_sep_id p : Str.ends_with_sep p = false -> PosixPath.rstrip_sep p = p.
Proof.
  induction p as [|c p IH]; [reflexivity|]. destruct p as [|d p].
  - cbn. intros ->. reflexivity.
  - rewrite ends_with_sep_cons by discriminate. intros H.
    cbn [PosixPath.rstrip_sep] in IH |- *. rewrite (IH H). reflexivity.
Qed.

Lemma all_sep_ends p :
  p <> "" -> PosixPath.all_sep p = true -> Str.ends_with_sep p = true.
Proof.
  induction p as [|c p IH]; [congruence|]. intros _. destruct p as [|d p].
  - cbn. rewrite andb_true_r. auto.
  - rewrite ends_with_sep_cons by discriminate.
    cbn [PosixPath.all_sep] in IH |- *. intros H.
    apply andb_true_iff in H as [_ H]. apply IH; [discriminate | exact H].
Qed.

(** Off Windows the state knows a directory by its path without trailing
    separators; the root keeps its name. *)
Lemma dir_key_posix host p :
  system host <> "Windows" ->
  dir_key host p
  = if PosixPath.all_sep p then p else PosixPath.rstrip_sep p.
Proof.
  intros Hsys. unfold dir_key, path_split, path_join.
  apply String.eqb_neq in Hsys. rewrite Hsys.
  cbn [PosixPath.split fst]. destruct (String.eqb p "") eqn:Ee.
  { apply String.eqb_eq in Ee. subst p. reflexivity. }
  apply String.eqb_neq in Ee.
  destruct (Str.ends_with_sep p) eqn:Es.
  - unfold PosixPath.join. change (Str.startswith "/" ".write_test") with false.
    cbv iota. rewrite Es, orb_true_r.
    destruct (ends_with_sep_split p Es) as [a Ha].
    unfold PosixPath.dirname.
    replace (PosixPath.head_to_last_sep (p ++ ".write_test")) with p.
    + apply String.eqb_neq in Ee. rewrite Ee. cbn [negb andb].
      destruct (PosixPath.all_sep p); reflexivity.
    + rewrite Ha at 2. rewrite append_assoc.
      rewrite head_to_last_sep_app by reflexivity. exact Ha.
  - destruct (dirname_join p ".write_test" Ee Es eq_refl) as [_ Hd].
    rewrite Hd, (rstrip_sep_id p Es).
    destruct (PosixPath.all_sep p) eqn:Ea; [reflexivity|reflexivity].
Qed.

Lemma length_app (a b : string) :
  String.length (a ++ b) = (String.length a + String.length b)%nat.
Proof.
  induction a as [|c a IH]; [reflexivity|].
  rewrite append_cons. cbn [String.length]. rewrite IH. reflexivity.
Qed.

Lemma split_app d :
  (PosixPath.head_to_last_sep d ++ PosixPath.basename d)%string = d.
Proof.
  induction d as [|c d IH]; [reflexivity|].
  cbn [PosixPath.head_to_last_sep PosixPath.basename].
  destruct (Str.contains "/" d).
  - rewrite append_cons, IH. reflexivity.
  - destruct (Str.is_sep c); reflexivity.
Qed.

Lemma rstrip_sep_length s :
  (String.length (PosixPath.rstrip_sep s) <= String.length s)%nat.
Proof.
  induction s as [|c s IH]; [reflexivity|]. cbn [PosixPath.rstrip_sep].
  destruct (PosixPath.rstrip_sep s) as [|d r].
  - destruct (Str.is_sep c); cbn [String.length]; lia.
  - cbn [String.length] in IH |- *. lia.
Qed.

Lemma dirname_length d :
  (String.length (PosixPath.dirname d)
   <= String.length (PosixPath.head_to_last_sep d))%nat.
Proof.
  unfold PosixPath.dirname. destruct (_ && _); [|reflexivity].
  apply rstrip_sep_length.
Qed.

(** Off Windows the bound on the length in [parent_key] always holds:
    the parent is the directory part of [os.path.split], whenever both
    parts are non-empty. *)
Lemma parent_key_posix host d :
  system host <> "Windows" ->
  parent_key host d
  = if negb (String.eqb (PosixPath.dirname d) "") &&
       negb (String.eqb (PosixPath.basename d) "")
    then Some (dir_key host (PosixPath.dirname d)) else None.
Proof.
  intros Hsys. unfold parent_key, path_split.
  apply String.eqb_neq in Hsys as Hsys'. rewrite Hsys'.
  cbn [PosixPath.split].
  destruct (negb (String.eqb (PosixPath.dirname d) "") &&
            negb (String.eqb (PosixPath.basename d) "")) eqn:E;
    [|reflexivity].
  cbn [andb]. apply andb_true_iff in E as [_ Eb].
  apply negb_true_iff, String.eqb_neq in Eb.
  replace (String.length (dir_key host (PosixPath.dirname d)) <?
           String.length d)%nat with true; [reflexivity|].
  symmetry. apply Nat.ltb_lt.
  rewrite (dir_key_posix host _ Hsys).
  assert (Hk : (String.length
                  (if PosixPath.all_sep (PosixPath.dirname d)
                   then PosixPath.dirname d
                   else PosixPath.rstrip_sep (PosixPath.dirname d))
                <= String.length (PosixPath.dirname d))%nat).
  { destruct (PosixPath.all_sep _); [reflexivity | apply rstrip_sep_length]. }
  pose proof (dirname_length d) as Hd.
  pose proof (f_equal String.length (split_app d)) as Hl.
  rewrite length_app in Hl.
  assert (0 < String.length (PosixPath.basename d))%nat.
  { destruct (PosixPath.basename d); [congruence | cbn; lia]. }
  lia.
Qed.

(** The directories above a cache directory on a Mac, and under a drive
    on the sample Windows machine whose root cannot be made. *)
Example parent_key_nested :
  parent_key mac "/Volumes/RAID/_caches/nuke" = Some "/Volumes/RAID/_caches" /\
  parent_key mac "/Volumes" = Some "/" /\
  parent_key mac "/" = None /\
  parent_key windows "C:\Users" = Some "C:\" /\
  parent_key windows "C:\" = None.
Proof. vm_compute. auto. Qed.
